(** * Text reconstruction pipeline of [extrator_decisoes.py]

    A shallow embedding of the line classifier, the paragraph reflower
    ([merge_lines]), the section normaliser ([normalize_paragraphs]), the
    case-number resolver ([extrair_numero_processo]), the reader of the
    judge's title ([extrair_termo_juiz]), the per-document pipeline
    ([extrair_info_pdf]) and the folder loop ([processar_pasta_decisoes]).

    Python [str] values are modelled as lists of Latin-1 code points
    (U+0000 .. U+00FF, the type [ascii] read as an 8-bit code point).  Every
    literal of the source (including the accented letters and the ordinal
    indicator U+00BA) lies in that range, and on that range the character
    predicates below are the ones of CPython's Unicode database.  The text
    given to [extrair_termo_juiz] is a list of Unicode code points instead:
    there the result depends on letters outside Latin-1.  Paths are POSIX
    paths, with [Path.stem] as in CPython up to 3.13. *)

From Stdlib Require Import Ascii String List NArith Arith Bool Lia.
Import ListNotations.

Local Open Scope list_scope.
Local Open Scope bool_scope.

(* ================================================================== *)
(** ** Characters and strings *)

Definition str := list ascii.

(** An ASCII literal as a [str]. *)
Definition txt (s : string) : str := list_ascii_of_string s.

Definition code (c : ascii) : N := N_of_ascii c.

Definition in_range (lo hi : N) (c : ascii) : bool :=
  (N.leb lo (code c)) && (N.leb (code c) hi).

Definition is_code (n : N) (c : ascii) : bool := N.eqb (code c) n.

(** [str.isspace] on one character; also the class [\s] of [re] on [str]
    patterns: TAB..CR, FS..US, SPACE, NEL and NBSP. *)
Definition isspace (c : ascii) : bool :=
  in_range 9 13 c || in_range 28 32 c || is_code 133 c || is_code 160 c.

(** [str.isdecimal] on one character; also the class [\d] of [re]. *)
Definition isdecimal (c : ascii) : bool := in_range 48 57 c.

(** [str.isdigit] on one character: the decimal digits and the superscript
    digits U+00B2, U+00B3, U+00B9. *)
Definition isdigit (c : ascii) : bool :=
  isdecimal c || is_code 178 c || is_code 179 c || is_code 185 c.

(** [str.isnumeric] on one character: the digits and the vulgar fractions. *)
Definition isnumeric (c : ascii) : bool := isdigit c || in_range 188 190 c.

(** Characters with the Uppercase property. *)
Definition char_isupper (c : ascii) : bool :=
  in_range 65 90 c || in_range 192 214 c || in_range 216 222 c.

(** Characters with the Lowercase property (the ordinal indicators U+00AA and
    U+00BA and the micro sign are lower-case). *)
Definition char_islower (c : ascii) : bool :=
  in_range 97 122 c || is_code 170 c || is_code 181 c || is_code 186 c
  || in_range 223 246 c || in_range 248 255 c.

Definition char_iscased (c : ascii) : bool := char_isupper c || char_islower c.

(** Word characters of [re] ([\w]): alphanumerics and the underscore. *)
Definition isword (c : ascii) : bool :=
  char_iscased c || isnumeric c || is_code 95 c.

(** Simple lower-case mapping. *)
Definition tolower (c : ascii) : ascii :=
  if char_isupper c then ascii_of_N (code c + 32) else c.

(** Named non-ASCII literals of the source. *)
Definition A_acute : ascii := "193"%char.
Definition A_tilde : ascii := "195"%char.
Definition C_cedilla : ascii := "199"%char.
Definition O_acute : ascii := "211"%char.
Definition e_acute : ascii := "233"%char.
Definition o_acute : ascii := "243"%char.
Definition o_circ : ascii := "244"%char.
Definition ord_masc : ascii := "186"%char.
Definition sup_two : ascii := "178"%char.
Definition LF : ascii := "010"%char.
Definition CR : ascii := "013"%char.

Definition is_empty (s : str) : bool :=
  match s with [] => true | _ :: _ => false end.

Fixpoint dropwhile (f : ascii -> bool) (s : str) : str :=
  match s with
  | [] => []
  | c :: t => if f c then dropwhile f t else s
  end.

Definition lstrip (s : str) : str := dropwhile isspace s.
Definition rstrip (s : str) : str := rev (dropwhile isspace (rev s)).

(** [str.strip()] *)
Definition strip (s : str) : str := rstrip (lstrip s).

(** [str.isupper()]: no lower-case character and at least one upper-case
    one (Latin-1 has no title-case characters). *)
Definition isupper (s : str) : bool :=
  negb (existsb char_islower s) && existsb char_isupper s.

(** [str.isdigit()] *)
Definition str_isdigit (s : str) : bool :=
  negb (is_empty s) && forallb isdigit s.

(** [sep.join(l)] *)
Fixpoint join (sep : str) (l : list str) : str :=
  match l with
  | [] => []
  | [x] => x
  | x :: t => x ++ sep ++ join sep t
  end.

(** Line boundaries of [str.splitlines] in the Latin-1 range. *)
Definition is_linebreak (c : ascii) : bool :=
  in_range 10 13 c || in_range 28 30 c || is_code 133 c.

(** [str.splitlines()]; [cur] is the current line, reversed. CR LF is one
    boundary and a final boundary opens no empty line. *)
Fixpoint splitlines_aux (cur : str) (s : str) : list str :=
  match s with
  | [] => match cur with [] => [] | _ => [rev cur] end
  | c :: t =>
      if is_linebreak c then
        rev cur ::
        match t with
        | c' :: t' =>
            if is_code 13 c && is_code 10 c' then splitlines_aux [] t'
            else splitlines_aux [] t
        | [] => []
        end
      else splitlines_aux (c :: cur) t
  end.

Definition splitlines (s : str) : list str := splitlines_aux [] s.

(* ================================================================== *)
(** ** The fragment of Python's [re] used by the source

    A backtracking matcher in the order of [re]: the results of [run] are
    the ways a pattern can match at a position, most preferred first, so the
    match [re] reports is the head of the list. *)

(** One-character items. *)
Inductive cclass : Type :=
| Lit (a : ascii)          (* a literal character *)
| OneOf (l : list ascii)   (* [...] *)
| Digit                    (* \d *)
| Space.                   (* \s *)

Inductive regex : Type :=
| Eps
| Chr (k : cclass)
| Star (k : cclass)              (* k*, greedy *)
| Plus (k : cclass)              (* k+, greedy *)
| Rep (n : nat) (k : cclass)     (* k{n} *)
| Seq (r1 r2 : regex)
| Alt (r1 r2 : regex)
| Group (r : regex)              (* the capturing group read by the caller *)
| Bol                            (* ^ (no MULTILINE flag) *)
| Eol                            (* $ *)
| Wordb.                         (* \b *)

Declare Scope regex_scope.
Delimit Scope regex_scope with re.
Bind Scope regex_scope with regex.
Infix ";;" := Seq (at level 61, right associativity) : regex_scope.

(** A literal word. *)
Fixpoint lits (w : str) : regex :=
  match w with
  | [] => Eps
  | a :: t => Seq (Chr (Lit a)) (lits t)
  end.

(** Character comparison, under [re.IGNORECASE] when [ic] is set. *)
Definition char_eq (ic : bool) (a c : ascii) : bool :=
  if ic then Ascii.eqb (tolower c) (tolower a) else Ascii.eqb c a.

Definition accepts (ic : bool) (k : cclass) (c : ascii) : bool :=
  match k with
  | Lit a => char_eq ic a c
  | OneOf l => existsb (fun a => char_eq ic a c) l
  | Digit => isdecimal c
  | Space => isspace c
  end.

(** A position in the subject: the character before it ([None] at the start
    of the string), the text after it, and the text of the group if it has
    been closed. *)
Record cursor : Type := Cur {
  prev : option ascii;
  rest : str;
  cap : option str
}.

Definition word_before (c : cursor) : bool :=
  match prev c with Some a => isword a | None => false end.
Definition word_after (c : cursor) : bool :=
  match rest c with a :: _ => isword a | [] => false end.

Definition at_boundary (c : cursor) : bool := xorb (word_before c) (word_after c).

(** [$]: the end of the string, or just before a final newline. *)
Definition at_eol (c : cursor) : bool :=
  match rest c with
  | [] => true
  | [a] => is_code 10 a
  | _ => false
  end.

Definition step_char (ic : bool) (k : cclass) (c : cursor) : list cursor :=
  match rest c with
  | a :: t => if accepts ic k a then [Cur (Some a) t (cap c)] else []
  | [] => []
  end.

(** Greedy repetition: the longest run first. *)
Fixpoint star_from (ic : bool) (k : cclass) (p : option ascii) (s : str)
  (g : option str) : list cursor :=
  match s with
  | a :: t =>
      if accepts ic k a then star_from ic k (Some a) t g ++ [Cur p s g]
      else [Cur p s g]
  | [] => [Cur p s g]
  end.

Fixpoint rep_from (ic : bool) (k : cclass) (n : nat) (c : cursor) : list cursor :=
  match n with
  | 0 => [c]
  | S n' => flat_map (rep_from ic k n') (step_char ic k c)
  end.

(** The text between two positions of the same subject. *)
Definition consumed (c c' : cursor) : str :=
  firstn (length (rest c) - length (rest c')) (rest c).

Fixpoint run (ic : bool) (r : regex) (c : cursor) : list cursor :=
  match r with
  | Eps => [c]
  | Chr k => step_char ic k c
  | Star k => star_from ic k (prev c) (rest c) (cap c)
  | Plus k =>
      flat_map (fun c1 => star_from ic k (prev c1) (rest c1) (cap c1))
               (step_char ic k c)
  | Rep n k => rep_from ic k n c
  | Seq r1 r2 => flat_map (run ic r2) (run ic r1 c)
  | Alt r1 r2 => run ic r1 c ++ run ic r2 c
  | Group r1 =>
      map (fun c' => Cur (prev c') (rest c') (Some (consumed c c')))
          (run ic r1 c)
  | Bol => match prev c with None => [c] | Some _ => [] end
  | Eol => if at_eol c then [c] else []
  | Wordb => if at_boundary c then [c] else []
  end.

(** The match at one position, if any. *)
Definition match_at (ic : bool) (r : regex) (c : cursor) : option cursor :=
  match run ic r c with
  | c' :: _ => Some c'
  | [] => None
  end.

(** [pattern.match(s)] *)
Definition re_match (ic : bool) (r : regex) (s : str) : option cursor :=
  match_at ic r (Cur None s None).

(** The leftmost match at or after a position. *)
Fixpoint search_from (ic : bool) (r : regex) (p : option ascii) (s : str)
  : option cursor :=
  match match_at ic r (Cur p s None) with
  | Some c' => Some c'
  | None =>
      match s with
      | [] => None
      | a :: t => search_from ic r (Some a) t
      end
  end.

(** [pattern.search(s)] *)
Definition re_search (ic : bool) (r : regex) (s : str) : option cursor :=
  search_from ic r None s.

Definition found (o : option cursor) : bool :=
  match o with Some _ => true | None => false end.

(** [re.sub(pattern, repl, s)] for a replacement without group references:
    every non-overlapping match, left to right, is replaced; [skip] counts
    the characters of the last match still to be passed over.  An empty
    match is replaced and the scan moves on by one character. *)
Fixpoint sub_from (ic : bool) (r : regex) (repl : str) (skip : nat)
  (p : option ascii) (s : str) : str :=
  match skip with
  | S k =>
      match s with
      | a :: t => sub_from ic r repl k (Some a) t
      | [] => []
      end
  | 0 =>
      match match_at ic r (Cur p s None) with
      | Some c' =>
          repl ++
          match length (consumed (Cur p s None) c'), s with
          | 0, a :: t => a :: sub_from ic r repl 0 (Some a) t
          | S k, a :: t => sub_from ic r repl k (Some a) t
          | _, [] => []
          end
      | None =>
          match s with
          | a :: t => a :: sub_from ic r repl 0 (Some a) t
          | [] => []
          end
      end
  end.

Definition re_sub (ic : bool) (r : regex) (repl : str) (s : str) : str :=
  sub_from ic r repl 0 None s.

(* ================================================================== *)
(** ** 1. Header and footer clean-up *)

Local Open Scope regex_scope.

(** The postal-code pattern, the one header pattern without [^]. *)
Definition CEP_PATTERN : regex :=
  lits (txt "CEP:") ;; Star Space ;; Rep 5 Digit ;; Chr (Lit "-") ;; Rep 3 Digit.

Definition HEADER_PATTERNS : list regex :=
  [ Bol ;; lits (txt "PODER JUDICI") ;; Chr (OneOf [A_acute; "A"%char])
        ;; lits (txt "RIO");
    Bol ;; lits (txt "Comarca de");
    Bol ;; lits (txt "Vara ");
    Bol ;; Chr (Lit "F") ;; Chr (OneOf ["o"%char; o_acute]) ;; lits (txt "rum");
    CEP_PATTERN;
    Bol ;; Star Space ;; lits (txt "Tel");
    Bol ;; Star Space ;; lits (txt "Email") ].

Definition FOOTER_PATTERNS : list regex :=
  [ Bol ;; lits (txt "Este documento " ++ [e_acute] ++ txt " c" ++ [o_acute]
                 ++ txt "pia do original");
    Bol ;; lits (txt "Para conferir o original");
    Bol ;; lits (txt "Documento eletr" ++ [o_circ] ++ txt "nico assinado por");
    Bol ;; lits (txt "fls") ;; Chr (Lit ".") ;; Star Space ;; Plus Digit ].

(** [any(r.search(line) for r in regexes)], the patterns being compiled with
    [re.IGNORECASE]. *)
Definition any_search (regexes : list regex) (line : str) : bool :=
  existsb (fun r => found (re_search true r line)) regexes.

Definition is_header_line (line : str) : bool :=
  let line := strip line in
  if is_empty line then false else any_search HEADER_PATTERNS line.

Definition is_footer_line (line : str) : bool :=
  let line := strip line in
  if is_empty line then false else any_search FOOTER_PATTERNS line.

(* ------------------------------------------------------------------ *)
(** *** [merge_lines] *)

Definition RELATORIO_re : regex :=
  lits (txt "RELAT") ;; Chr (OneOf [O_acute; "O"%char]) ;; lits (txt "RIO").
Definition FUNDAMENTACAO_re : regex :=
  lits (txt "FUNDAMENTA") ;; Chr (OneOf [C_cedilla; "C"%char])
    ;; Chr (OneOf [A_tilde; "A"%char]) ;; lits (txt "O").
Definition DISPOSITIVO_re : regex := lits (txt "DISPOSITIVO").

Definition sec_pattern : regex :=
  Bol ;; Plus Digit ;; Chr (Lit ".") ;; Star Space
      ;; Group (Alt RELATORIO_re (Alt FUNDAMENTACAO_re DISPOSITIVO_re)) ;; Wordb.

(** [r"[.!?;:]$"], compiled without flags. *)
Definition end_of_sentence : regex :=
  Chr (OneOf (txt ".!?;:")) ;; Eol.

(** [if buffer: merged.append(buffer.strip())] *)
Definition flush (merged : list str) (buffer : str) : list str :=
  if is_empty buffer then merged else merged ++ [strip buffer].

(** The test [sec_pattern.match(line) or line.isupper()]. *)
Definition hard_break (line : str) : bool :=
  found (re_match true sec_pattern line) || isupper line.

(** One turn of the loop of [merge_lines] on the state [(merged, buffer)]. *)
Definition merge_step (st : list str * str) (raw_line : str) : list str * str :=
  let '(merged, buffer) := st in
  let line := strip raw_line in
  if is_empty line then
    (flush merged buffer, [])
  else if hard_break line then
    (flush merged buffer ++ [line], [])
  else if is_empty buffer then
    (merged, line)
  else if found (re_search false end_of_sentence buffer) then
    (merged ++ [strip buffer], line)
  else
    (merged, buffer ++ txt " " ++ line).

Definition merge_loop (lines : list str) : list str * str :=
  fold_left merge_step lines ([], []).

Definition merge_lines (lines : list str) : list str :=
  let '(merged, buffer) := merge_loop lines in
  flush merged buffer.

(* ------------------------------------------------------------------ *)
(** *** [normalize_paragraphs] *)

Definition heading (name : regex) : regex :=
  Bol ;; Plus Digit ;; Chr (Lit ".") ;; Star Space ;; name ;; Wordb.

Definition normalize_one (p : str) : str :=
  let p_norm := re_sub true (heading RELATORIO_re) (txt "### RELATORIO") p in
  let p_norm := re_sub true (heading FUNDAMENTACAO_re) (txt "### FUNDAMENTACAO") p_norm in
  let p_norm := re_sub true (heading DISPOSITIVO_re) (txt "### DISPOSITIVO") p_norm in
  p_norm.

Definition normalize_paragraphs (merged : list str) : list str :=
  map normalize_one merged.

(* ================================================================== *)
(** ** 2. Extraction of the case number *)

Definition i_acute : ascii := "237"%char.

(** [s[a:b]] *)
Definition slice (s : str) (a b : nat) : str := firstn (b - a) (skipn a s).

Fixpoint split_aux (sep : ascii) (cur : str) (s : str) : list str :=
  match s with
  | [] => [rev cur]
  | c :: t =>
      if Ascii.eqb c sep then rev cur :: split_aux sep [] t
      else split_aux sep (c :: cur) t
  end.

Fixpoint str_eqb (a b : str) : bool :=
  match a, b with
  | [], [] => true
  | x :: a', y :: b' => Ascii.eqb x y && str_eqb a' b'
  | _, _ => false
  end.

(** The components of a POSIX path: empty and ["."] components are dropped. *)
Definition path_parts (p : str) : list str :=
  filter (fun x => negb (is_empty x) && negb (str_eqb x (txt ".")))
         (split_aux "/" [] p).

(** [Path(p).name] *)
Definition path_name (p : str) : str := last (path_parts p) [].

Fixpoint rfind_aux (c : ascii) (i : nat) (s : str) (acc : option nat) : option nat :=
  match s with
  | [] => acc
  | a :: t => rfind_aux c (S i) t (if Ascii.eqb a c then Some i else acc)
  end.

(** [Path(p).stem]: the name up to its last dot, unless that dot is the
    first or the last character of the name. *)
Definition path_stem (p : str) : str :=
  let name := path_name p in
  match rfind_aux "." 0 name None with
  | Some i =>
      if (0 <? i) && (i <? length name - 1) then firstn i name else name
  | None => name
  end.

Definition case_token : regex :=
  Rep 7 Digit ;; Chr (Lit "-") ;; Rep 2 Digit ;; Chr (Lit ".") ;; Rep 4 Digit
    ;; Chr (Lit ".") ;; Chr Digit ;; Chr (Lit ".") ;; Rep 2 Digit
    ;; Chr (Lit ".") ;; Rep 4 Digit.

Definition padrao_numero : regex :=
  lits (txt "Processo") ;; Plus Space ;; Chr (Lit "n")
    ;; Chr (OneOf [ord_masc; "#"%char]) ;; Chr (Lit ":") ;; Star Space
    ;; Group case_token.

Definition formatar (nome_sem_ext : str) : str :=
  slice nome_sem_ext 0 7 ++ txt "-" ++ slice nome_sem_ext 7 9 ++ txt "."
    ++ slice nome_sem_ext 9 13 ++ txt "." ++ slice nome_sem_ext 13 14 ++ txt "."
    ++ slice nome_sem_ext 14 16 ++ txt "." ++ slice nome_sem_ext 16 20.

Definition extrair_numero_processo (text nome_arquivo : str) : option str :=
  match re_search true padrao_numero text with
  | Some m_numero => cap m_numero
  | None =>
      let nome_sem_ext := path_stem nome_arquivo in
      if (length nome_sem_ext =? 20) && str_isdigit nome_sem_ext
      then Some (formatar nome_sem_ext)
      else None
  end.

(* ------------------------------------------------------------------ *)
(** *** [extrair_termo_juiz]

    Under [re.IGNORECASE] the letter [i] of the pattern is also matched by
    two letters that lie outside Latin-1, U+0130 and U+0131, and
    [str.lower()] does not bring them back to [i].  The text of this
    function is therefore a list of Unicode code points.  What the Unicode
    database says beyond Latin-1 is given by two parameters: the word
    characters from U+0100 on, and [str.lower()] on a text that has a code
    point other than Latin-1, U+0130 and U+0131. *)

Definition ustr := list N.

Local Open Scope N_scope.

(** The code point of a Latin-1 character, and the text of a literal. *)
Definition cp (a : ascii) : N := N_of_ascii a.
Definition utxt (s : string) : ustr := map cp (txt s).

Definition dotted_I : N := 304.       (* U+0130 *)
Definition dotless_i : N := 305.      (* U+0131 *)
Definition dot_above : N := 775.      (* U+0307 *)

(** The code points beyond Latin-1 that [re.IGNORECASE] takes for a Latin-1
    letter of a pattern. *)
Definition wide_equivalents (a : N) : list N :=
  if (a =? 73) || (a =? 105) then [dotted_I; dotless_i]       (* I i *)
  else if (a =? 75) || (a =? 107) then [8490]                 (* K k: U+212A *)
  else if (a =? 83) || (a =? 115) then [383]                  (* S s: U+017F *)
  else if a =? 181 then [924; 956]                            (* micro sign *)
  else if (a =? 197) || (a =? 229) then [8491]                (* A ring: U+212B *)
  else if a =? 223 then [7838]                                (* sharp s *)
  else if a =? 255 then [376]                                 (* y diaeresis *)
  else [].

(** A code point against a Latin-1 letter of the pattern, case ignored. *)
Definition uchar_eq (a c : N) : bool :=
  if c <? 256 then char_eq true (ascii_of_N a) (ascii_of_N c)
  else existsb (N.eqb c) (wide_equivalents a).

Inductive uclass : Type :=
| ULit (a : N)
| UOneOf (l : list N).

Definition uaccepts (k : uclass) (c : N) : bool :=
  match k with
  | ULit a => uchar_eq a c
  | UOneOf l => existsb (fun a => uchar_eq a c) l
  end.

(** A run of single-character classes read at a position: the character
    before the position reached, the text read and the text left. *)
Fixpoint read_classes (ks : list uclass) (p : option N) (s : ustr)
  : option (option N * ustr * ustr) :=
  match ks with
  | [] => Some (p, [], s)
  | k :: ks' =>
      match s with
      | c :: t =>
          if uaccepts k c then
            match read_classes ks' (Some c) t with
            | Some (q, g, r) => Some (q, c :: g, r)
            | None => None
            end
          else None
      | [] => None
      end
  end.

(** The letters of [r"Ju[ií]z[ae]\b"]. *)
Definition padrao_juiz : list uclass :=
  [ ULit (cp "J"); ULit (cp "u"); UOneOf [cp "i"; cp i_acute]; ULit (cp "z");
    UOneOf [cp "a"; cp "e"] ].

Section UnicodeDatabase.

Variable wide_word : N -> bool.
Variable wide_lower : ustr -> ustr.

(** [\w] *)
Definition uword (c : N) : bool :=
  if c <? 256 then isword (ascii_of_N c) else wide_word c.

(** [\b] between the character [p] and the text [s]. *)
Definition uboundary (p : option N) (s : ustr) : bool :=
  xorb (match p with Some b => uword b | None => false end)
       (match s with c :: _ => uword c | [] => false end).

(** The match of the pattern at one position: its [group(0)]. *)
Definition match_juiz_at (p : option N) (s : ustr) : option ustr :=
  match read_classes padrao_juiz p s with
  | Some (q, g, r) => if uboundary q r then Some g else None
  | None => None
  end.

(** [re.search]: the leftmost match. *)
Fixpoint search_juiz (p : option N) (s : ustr) : option ustr :=
  match match_juiz_at p s with
  | Some g => Some g
  | None =>
      match s with
      | [] => None
      | c :: t => search_juiz (Some c) t
      end
  end.

(** The lower-case form of a code point of Latin-1, of U+0130 and of
    U+0131. *)
Definition lower_cp (c : N) : ustr :=
  if c <? 256 then [cp (tolower (ascii_of_N c))]
  else if c =? dotted_I then [cp "i"; dot_above]
  else [c].

(** [str.lower()]: character by character on the code points above. *)
Definition lower (s : ustr) : ustr :=
  if forallb (fun c => (c <? 256) || (c =? dotted_I) || (c =? dotless_i)) s
  then flat_map lower_cp s
  else wide_lower s.

(** [s.replace(old, new)] for one-character [old] and [new]. *)
Definition replace_char (old new : N) (s : ustr) : ustr :=
  map (fun c => if c =? old then new else c) s.

Definition extrair_termo_juiz (text : ustr) : option ustr :=
  match search_juiz None text with
  | Some group0 =>
      let termo := lower group0 in
      let termo := replace_char (cp i_acute) (cp "i") termo in
      Some termo
  | None => None
  end.

End UnicodeDatabase.

Local Close Scope N_scope.

(* ================================================================== *)
(** ** 3. The per-document pipeline

    The PDF reader is an outside collaborator, so a document is given by
    what the reader does on it: opening raises or yields the pages, and
    [extract_text] on a page raises or returns a text or [None].  The field
    [later_fault] is an exception (its [str()]) raised by the stage that
    follows the page loop, if any: the catch-all of the function is there
    for such conditions. *)

Inductive page_outcome : Type :=
| ExtractRaises (msg : str)
| ExtractReturns (t : option str).

Inductive open_outcome : Type :=
| OpenRaises (msg : str)
| Opens (pages : list page_outcome).

Record document : Type := Document {
  caminho_pdf : str;
  opening : open_outcome;
  later_fault : option str
}.

Record resultado : Type := Resultado {
  arquivo : str;
  numeroProcesso : option str;
  texto_completo_limpo : str;
  sucesso : bool;
  erro : option str
}.

Definition set_erro (r : resultado) (e : str) : resultado :=
  Resultado (arquivo r) (numeroProcesso r) (texto_completo_limpo r) (sucesso r)
            (Some e).

(** A computation that returns or raises. *)
Inductive outcome (A : Type) : Type :=
| Return (a : A)
| Raise (e : str).
Arguments Return {A} a.
Arguments Raise {A} e.

(** The lines a page contributes to [cleaned_lines]. *)
Definition page_lines (text : str) : list str :=
  flat_map (fun line =>
              if is_header_line line || is_footer_line line then []
              else if is_empty (strip line) then [[]]
              else [line])
           (splitlines text).

(** One page of the loop on the state [(all_text_pages, cleaned_lines)]; a
    page whose extraction raises is logged and skipped. *)
Definition page_step (st : list str * list str) (page : page_outcome)
  : list str * list str :=
  match page with
  | ExtractRaises _ => st
  | ExtractReturns t =>
      let text := match t with Some s => s | None => [] end in
      (fst st ++ [text], snd st ++ page_lines text)
  end.

Definition read_pages (pages : list page_outcome) : list str * list str :=
  fold_left page_step pages ([], []).

Definition a_acute : ascii := "225"%char.

Definition msg_vazio : str := txt "PDF vazio ou sem p" ++ [a_acute] ++ txt "ginas".

(** The text [texto_completo_limpo] of a successful run. *)
Definition clean_text (cleaned_lines : list str) : str :=
  strip (join [LF; LF] (normalize_paragraphs (merge_lines cleaned_lines))).

(** The body of the outer [try]. *)
Definition extrair_info_pdf_body (d : document) (resultado0 : resultado)
  : outcome resultado :=
  match opening d with
  | OpenRaises pdf_error =>
      Return (set_erro resultado0 (txt "Erro ao abrir PDF: " ++ firstn 50 pdf_error))
  | Opens pages =>
      match pages with
      | [] => Return (set_erro resultado0 msg_vazio)
      | _ :: _ =>
          let '(all_text_pages, cleaned_lines) := read_pages pages in
          match later_fault d with
          | Some e => Raise e
          | None =>
              let full_raw_text := join [LF] all_text_pages in
              let texto := clean_text cleaned_lines in
              let numero_processo :=
                extrair_numero_processo full_raw_text (path_name (caminho_pdf d)) in
              Return (Resultado (arquivo resultado0) numero_processo texto true
                                (erro resultado0))
          end
      end
  end.

Definition extrair_info_pdf (d : document) : resultado :=
  let resultado0 := Resultado (path_name (caminho_pdf d)) None [] false None in
  match extrair_info_pdf_body d resultado0 with
  | Return r => r
  | Raise e => set_erro resultado0 (txt "Erro ao processar PDF: " ++ e)
  end.

(* ------------------------------------------------------------------ *)
(** *** [processar_pasta_decisoes]

    The folder is given by the documents its [*.pdf] entries are, in the
    order of the listing.  The CSV file is written by an outside library
    inside a [try] whose handler only logs, so it has no part in the value
    returned. *)

(** The anchor of a POSIX path: one slash, or two when the path starts with
    exactly two. *)
Definition path_root (p : str) : str :=
  match p with
  | "/"%char :: "/"%char :: "/"%char :: _ => txt "/"
  | "/"%char :: "/"%char :: _ => txt "//"
  | "/"%char :: _ => txt "/"
  | _ => []
  end.

(** The text of a path with the given anchor and components. *)
Definition path_format (root : str) (parts : list str) : str :=
  match root, parts with
  | [], [] => txt "."
  | _, _ => root ++ join (txt "/") parts
  end.

(** [str(Path(p))] *)
Definition path_str (p : str) : str := path_format (path_root p) (path_parts p).

(** [str(Path(p) / name)] for a relative [name]. *)
Definition path_child (p name : str) : str :=
  path_format (path_root p) (path_parts p ++ path_parts name).

(** An entry of the list [erros]. *)
Record erro_arquivo : Type := ErroArquivo {
  erro_nome : str;
  erro_descricao : option str
}.

(** One turn of the loop on the state [(resultados, erros)]. *)
Definition processar_step (st : list resultado * list erro_arquivo)
  (arquivo_pdf : document) : list resultado * list erro_arquivo :=
  let info := extrair_info_pdf arquivo_pdf in
  if sucesso info then (fst st ++ [info], snd st)
  else (fst st,
        snd st ++ [ErroArquivo (path_name (caminho_pdf arquivo_pdf)) (erro info)]).

Definition processar_loop (arquivos_pdf : list document)
  : list resultado * list erro_arquivo :=
  fold_left processar_step arquivos_pdf ([], []).

(** The dictionary returned; its three last keys are constant. *)
Record estatisticas : Type := Estatisticas {
  total_arquivos : nat;
  processados_com_sucesso : nat;
  com_erro : nat;
  arquivo_csv : str;
  pasta_txt : str;
  pasta_json : str;
  json_consolidado : str
}.

Definition processar_pasta_decisoes (pasta_decisoes : str)
  (arquivo_csv_saida : option str) (arquivos_pdf : list document)
  : estatisticas :=
  let arquivo_csv_saida :=
    match arquivo_csv_saida with
    | None => path_child pasta_decisoes (txt "decisoes_extraidas.csv")
    | Some saida => path_str saida
    end in
  let '(resultados, erros) := processar_loop arquivos_pdf in
  Estatisticas (length arquivos_pdf) (length resultados) (length erros)
    arquivo_csv_saida
    (txt "(nao utilizado)") (txt "(nao utilizado)") (txt "(nao utilizado)").

(* ================================================================== *)
(** * Vocabulary of the statements *)

(** ** Trimmed strings and the buffer of the reflow *)

(** The first character exists and is not white space. *)
Definition starts_solid (s : str) : bool :=
  match s with a :: _ => negb (isspace a) | [] => false end.

(** Both ends of a non-empty string are solid. *)
Definition trimmed (s : str) : Prop :=
  starts_solid s = true /\ starts_solid (rev s) = true.

(** The last character of a string. *)
Definition final (s : str) : option ascii := hd_error (rev s).

(** The buffer ends in one of [. ! ? ; :]. *)
Definition ends_sentence (buffer : str) : bool :=
  match final buffer with
  | Some c => existsb (Ascii.eqb c) (txt ".!?;:")
  | None => false
  end.

(** The buffer of the loop is empty or trimmed. *)
Definition buffer_ok (buffer : str) : Prop := buffer = [] \/ trimmed buffer.

(** ** The meaning of a pattern

    [matches] is the meaning of a pattern as a relation between the position
    where a match starts and the position where it ends; [run] lists exactly
    the end positions it relates to the start. *)

(** The character before the position reached by reading [w]. *)
Definition after (p : option ascii) (w : str) : option ascii :=
  fold_left (fun _ a => Some a) w p.

(** [c'] is reached from [c] by reading [w], every character of which is
    in the class [k]. *)
Definition reads (ic : bool) (k : cclass) (w : str) (c c' : cursor) : Prop :=
  rest c = w ++ rest c'
  /\ forallb (accepts ic k) w = true
  /\ prev c' = after (prev c) w
  /\ cap c' = cap c.

Fixpoint matches (ic : bool) (r : regex) (c c' : cursor) : Prop :=
  match r with
  | Eps => c' = c
  | Chr k => exists a, reads ic k [a] c c'
  | Star k => exists w, reads ic k w c c'
  | Plus k => exists w, w <> [] /\ reads ic k w c c'
  | Rep n k => exists w, length w = n /\ reads ic k w c c'
  | Seq r1 r2 => exists c1, matches ic r1 c c1 /\ matches ic r2 c1 c'
  | Alt r1 r2 => matches ic r1 c c' \/ matches ic r2 c c'
  | Group r1 =>
      exists c1, matches ic r1 c c1
                 /\ c' = Cur (prev c1) (rest c1) (Some (consumed c c1))
  | Bol => prev c = None /\ c' = c
  | Eol => at_eol c = true /\ c' = c
  | Wordb => at_boundary c = true /\ c' = c
  end.

(** [c'] is the position [w] further than [c]. *)
Definition moves (w : str) (c c' : cursor) : Prop :=
  rest c = w ++ rest c' /\ prev c' = after (prev c) w.

(** The same, with the group untouched. *)
Definition span (w : str) (c c' : cursor) : Prop :=
  moves w c c' /\ cap c' = cap c.

(** Literal text, compared as [lits] does. *)
Fixpoint lit_eq (ic : bool) (w x : str) : bool :=
  match w, x with
  | [], [] => true
  | a :: w', b :: x' => char_eq ic a b && lit_eq ic w' x'
  | _, _ => false
  end.

(** ** Case numbers *)

(** A string against a template in which an upper-case letter stands for a
    decimal digit and any other character for itself. *)
Fixpoint conforms (template s : str) : bool :=
  match template, s with
  | [], [] => true
  | t :: ts, c :: cs =>
      (if char_isupper t then isdecimal c else Ascii.eqb c t) && conforms ts cs
  | _, _ => false
  end.

(** The format [NNNNNNN-DD.AAAA.J.TT.OOOO] of the docstring. *)
Definition is_case_number (s : str) : bool :=
  conforms (txt "NNNNNNN-DD.AAAA.J.TT.OOOO") s.

(** The label before the number: [Processo], white space, [n], the ordinal
    indicator or [#], a colon and optional white space. *)
Definition label_shape (lab : str) : Prop :=
  exists w ws1 n o ws2,
    lab = w ++ ws1 ++ [n] ++ [o] ++ txt ":" ++ ws2
    /\ lit_eq true (txt "Processo") w = true
    /\ ws1 <> [] /\ forallb isspace ws1 = true
    /\ char_eq true "n" n = true
    /\ (o = ord_masc \/ o = "#"%char)
    /\ forallb isspace ws2 = true.

(** The text has a labelled case number [tok] that starts after [pre]. *)
Definition labelled_at (text pre tok : str) : Prop :=
  exists lab post,
    text = pre ++ lab ++ tok ++ post
    /\ label_shape lab /\ is_case_number tok = true.

(** The first rule as the specification words it, to be compared with
    [padrao_numero]: the label [Processo n] is literal, with one space. *)
Definition padrao_literal_label : regex :=
  lits (txt "Processo n") ;; Chr (OneOf [ord_masc; "#"%char]) ;; Chr (Lit ":")
    ;; Star Space ;; Group case_token.

(** ** Section headings *)

(** The spellings of a pattern made of literals and classes of literals
    only. *)
Fixpoint words (r : regex) : option (list str) :=
  match r with
  | Eps => Some [[]]
  | Chr (Lit a) => Some [[a]]
  | Chr (OneOf l) => Some (map (fun a => [a]) l)
  | Seq r1 r2 =>
      match words r1, words r2 with
      | Some l1, Some l2 =>
          Some (flat_map (fun w1 => map (fun w2 => w1 ++ w2) l2) l1)
      | _, _ => None
      end
  | _ => None
  end.

(** [nm] is one of the spellings [sps], case ignored. *)
Definition spelled (sps : list str) (nm : str) : bool :=
  existsb (fun sp => lit_eq true sp nm) sps.

(** The three sections a heading can name. *)
Inductive section_name : Type := RELATORIO | FUNDAMENTACAO | DISPOSITIVO.

Definition section_re (sec : section_name) : regex :=
  match sec with
  | RELATORIO => RELATORIO_re
  | FUNDAMENTACAO => FUNDAMENTACAO_re
  | DISPOSITIVO => DISPOSITIVO_re
  end.

(** The unaccented label written by [normalize_paragraphs]. *)
Definition canonical (sec : section_name) : str :=
  match sec with
  | RELATORIO => txt "RELATORIO"
  | FUNDAMENTACAO => txt "FUNDAMENTACAO"
  | DISPOSITIVO => txt "DISPOSITIVO"
  end.

(** The accented and unaccented spellings of a section name. *)
Definition spellings (sec : section_name) : list str :=
  match sec with
  | RELATORIO =>
      [ txt "RELAT" ++ [O_acute] ++ txt "RIO"; txt "RELATORIO" ]
  | FUNDAMENTACAO =>
      [ txt "FUNDAMENTA" ++ [C_cedilla; A_tilde] ++ txt "O";
        txt "FUNDAMENTA" ++ [C_cedilla] ++ txt "AO";
        txt "FUNDAMENTAC" ++ [A_tilde] ++ txt "O";
        txt "FUNDAMENTACAO" ]
  | DISPOSITIVO => [ txt "DISPOSITIVO" ]
  end.

(** The first character exists and is a word character. *)
Definition starts_word (s : str) : bool :=
  match s with a :: _ => isword a | [] => false end.

(** [p] opens with a numbered heading of the section [sec] and goes on with
    [trailing]: digits, a dot, optional white space, the name in one of its
    spellings (case ignored), and then no word character. *)
Definition heading_of (sec : section_name) (p trailing : str) : Prop :=
  exists ds ws nm,
    p = ds ++ txt "." ++ ws ++ nm ++ trailing
    /\ ds <> [] /\ forallb isdecimal ds = true
    /\ forallb isspace ws = true
    /\ spelled (spellings sec) nm = true
    /\ starts_word trailing = false.

(** The first letter and the length of a section name. *)
Definition initial (sec : section_name) : ascii :=
  match sec with
  | RELATORIO => "R"
  | FUNDAMENTACAO => "F"
  | DISPOSITIVO => "D"
  end%char.

Definition name_length (sec : section_name) : nat :=
  match sec with RELATORIO => 9 | FUNDAMENTACAO => 13 | DISPOSITIVO => 11 end.

(** The substitution for one section, as [normalize_paragraphs] calls it. *)
Definition sub_section (sec : section_name) (p : str) : str :=
  re_sub true (heading (section_re sec)) (txt "### " ++ canonical sec) p.

(** ** Boilerplate lines *)

(** The first two characters of a string, in lower case. *)
Definition head2 (s : str) : str := map tolower (firstn 2 s).

(** How a line matched by a footer pattern, and by a header pattern with
    [^], can begin. *)
Definition footer_openings : list str :=
  [txt "es"; txt "pa"; txt "do"; txt "fl"].

Definition header_openings : list str :=
  [txt "po"; txt "co"; txt "va"; txt "fo"; [ "f"%char; o_acute ];
   txt "te"; txt "em"].

(** ** Results of the pipeline *)

(** The texts of the pages whose extraction returned, in page order; a page
    without text counts as the empty text. *)
Definition page_texts (pages : list page_outcome) : list str :=
  flat_map (fun page =>
              match page with
              | ExtractRaises _ => []
              | ExtractReturns (Some s) => [s]
              | ExtractReturns None => [[]]
              end) pages.

(** A successful result: the flag is set and there is no error. *)
Definition is_success (r : resultado) : Prop :=
  sucesso r = true /\ erro r = None.

(** A success as the specification words it: with cleaned text. *)
Definition is_success_with_text (r : resultado) : Prop :=
  is_success r /\ texto_completo_limpo r <> [].

(** A failed result: the flag is clear, the error description is there and
    not empty, and there is no cleaned text. *)
Definition is_failure (r : resultado) : Prop :=
  sucesso r = false
  /\ (exists e, erro r = Some e /\ e <> [])
  /\ texto_completo_limpo r = [].

(** ** Shapes of header and footer lines *)

(** [s] starts with the word [w], case ignored. *)
Definition starts_ci (w s : str) : bool :=
  lit_eq true w (firstn (length w) s).

(** The words a header line can start with. *)
Definition header_words : list str :=
  [ txt "PODER JUDICI" ++ [A_acute] ++ txt "RIO"; txt "PODER JUDICIARIO";
    txt "Comarca de"; txt "Vara ";
    txt "Forum"; txt "F" ++ [o_acute] ++ txt "rum";
    txt "Tel"; txt "Email" ].

(** The phrases a footer line can start with. *)
Definition footer_words : list str :=
  [ txt "Este documento " ++ [e_acute] ++ txt " c" ++ [o_acute]
      ++ txt "pia do original";
    txt "Para conferir o original";
    txt "Documento eletr" ++ [o_circ] ++ txt "nico assinado por" ].

(** A postal code somewhere in the line: [CEP:], optional white space, five
    digits, a hyphen and three digits. *)
Definition has_cep (s : str) : Prop :=
  exists pre c ws d5 d3 post,
    s = pre ++ c ++ ws ++ d5 ++ txt "-" ++ d3 ++ post
    /\ lit_eq true (txt "CEP:") c = true
    /\ forallb isspace ws = true
    /\ length d5 = 5 /\ forallb isdecimal d5 = true
    /\ length d3 = 3 /\ forallb isdecimal d3 = true.

(** A page mark at the start of the line: [fls.], optional white space and a
    digit. *)
Definition is_page_mark (s : str) : Prop :=
  exists f ws d post,
    s = f ++ ws ++ d :: post
    /\ lit_eq true (txt "fls.") f = true
    /\ forallb isspace ws = true
    /\ isdecimal d = true.

(** ** The text of the lines *)

(** The trimmed contents of the lines that are not blank. *)
Definition solid_lines (lines : list str) : list str :=
  filter (fun l => negb (is_empty l)) (map strip lines).

(** A character that is not a separator of the case-number format. *)
Definition not_separator (c : ascii) : bool :=
  negb (Ascii.eqb c "-" || Ascii.eqb c ".").

(** ** Occurrences of the judge's title *)

Local Open Scope N_scope.

Definition among (l : list N) (c : N) : bool := existsb (N.eqb c) l.

(** The word [jui], with [i] in any of its six forms, [z], and [a] or [e],
    in either case. *)
Definition juiz_word (w : ustr) : bool :=
  match w with
  | [j; u; i; z; a] =>
      among [74; 106] j && among [85; 117] u
      && among [73; 105; 205; 237; dotted_I; dotless_i] i
      && among [90; 122] z && among [65; 97; 69; 101] a
  | _ => false
  end.

(** The first character exists and is a word character. *)
Definition starts_uword (wide_word : N -> bool) (s : ustr) : bool :=
  match s with c :: _ => uword wide_word c | [] => false end.

(** The text has such a word [w] after [pre], and no word character after
    it. *)
Definition juiz_at (wide_word : N -> bool) (text pre w : ustr) : Prop :=
  exists post,
    text = pre ++ w ++ post /\ juiz_word w = true
    /\ starts_uword wide_word post = false.

(** The values the title can take: the two plain ones, the two with the
    dotless i, and the two with i and the combining dot. *)
Definition termos_juiz : list ustr :=
  [ utxt "juiza"; utxt "juize";
    [106; 117; dotless_i; 122; 97]; [106; 117; dotless_i; 122; 101];
    [106; 117; 105; dot_above; 122; 97]; [106; 117; 105; dot_above; 122; 101] ].
Local Close Scope N_scope.

(** ** Documents of a folder *)

(** The document opens with at least one page and nothing raises after the
    pages are read. *)
Definition readable (d : document) : bool :=
  match opening d, later_fault d with
  | Opens (_ :: _), None => true
  | _, _ => false
  end.

(** The file name of a document. *)
Definition nome (d : document) : str := path_name (caminho_pdf d).

(** The entry of [erros] for a document. *)
Definition erro_de (d : document) : erro_arquivo :=
  ErroArquivo (nome d) (erro (extrair_info_pdf d)).

(** ** Path components *)

(** A character other than the slash. *)
Definition not_slash (c : ascii) : bool := negb (Ascii.eqb c "/").

(** A path component as [path_parts] keeps them: not empty, not a single
    dot, and without a slash. *)
Definition simple_name (x : str) : bool :=
  negb (is_empty x) && negb (str_eqb x (txt ".")) && forallb not_slash x.

(* ================================================================== *)
(** * Properties *)

(** ** Trimming *)

Lemma dropwhile_split (f : ascii -> bool) (s : str) :
  exists w, s = w ++ dropwhile f s /\ forallb f w = true.
Proof.
  induction s as [|a s [w [E F]]]; simpl.
  - exists []. auto.
  - destruct (f a) eqn:Fa.
    + exists (a :: w). simpl. rewrite Fa, F. split; [congruence | reflexivity].
    + exists []. auto.
Qed.

Lemma dropwhile_head (f : ascii -> bool) (s : str) (a : ascii) (t : str) :
  dropwhile f s = a :: t -> f a = false.
Proof.
  induction s as [|b s IH]; simpl; [discriminate|].
  destruct (f b) eqn:Fb; [exact IH|].
  intros E. injection E as -> _. exact Fb.
Qed.

Lemma dropwhile_id (f : ascii -> bool) (a : ascii) (t : str) :
  f a = false -> dropwhile f (a :: t) = a :: t.
Proof. intros H. simpl. now rewrite H. Qed.

Lemma starts_solid_app (s t : str) :
  starts_solid s = true -> starts_solid (s ++ t) = true.
Proof. destruct s; simpl; [discriminate | auto]. Qed.

Lemma starts_solid_nonempty (s : str) : starts_solid s = true -> s <> [].
Proof. destruct s; simpl; [discriminate | discriminate]. Qed.

Lemma lstrip_solid (s : str) : lstrip s <> [] -> starts_solid (lstrip s) = true.
Proof.
  unfold lstrip. destruct (dropwhile isspace s) as [|a t] eqn:E; [congruence|].
  intros _. simpl. now rewrite (dropwhile_head _ _ _ _ E).
Qed.

Lemma rstrip_prefix (s : str) : exists w, s = rstrip s ++ w.
Proof.
  unfold rstrip. destruct (dropwhile_split isspace (rev s)) as [w [E _]].
  exists (rev w). rewrite <- rev_app_distr, <- E. now rewrite rev_involutive.
Qed.

Lemma rstrip_solid_end (s : str) :
  rstrip s <> [] -> starts_solid (rev (rstrip s)) = true.
Proof.
  unfold rstrip. rewrite rev_involutive.
  destruct (dropwhile isspace (rev s)) as [|a t] eqn:E; [simpl; congruence|].
  intros _. simpl. now rewrite (dropwhile_head _ _ _ _ E).
Qed.

Lemma rstrip_solid_start (s : str) :
  starts_solid s = true -> rstrip s <> [] -> starts_solid (rstrip s) = true.
Proof.
  intros Hs Hne. destruct (rstrip_prefix s) as [w E].
  destruct (rstrip s) as [|a t]; [congruence|].
  rewrite E in Hs. exact Hs.
Qed.

(** A non-blank line, once trimmed, is solid at both ends. *)
Lemma strip_trimmed (s : str) : strip s <> [] -> trimmed (strip s).
Proof.
  unfold strip. intros H. split.
  - apply rstrip_solid_start; [|exact H].
    apply lstrip_solid. intros E. apply H. now rewrite E.
  - now apply rstrip_solid_end.
Qed.

Lemma strip_of_trimmed (s : str) : trimmed s -> strip s = s.
Proof.
  intros [H1 H2]. unfold strip, lstrip, rstrip.
  destruct s as [|a t]; [discriminate|].
  simpl in H1. apply negb_true_iff in H1.
  rewrite (dropwhile_id _ _ _ H1).
  destruct (rev (a :: t)) as [|b u] eqn:E; [discriminate|].
  simpl in H2. apply negb_true_iff in H2.
  rewrite (dropwhile_id _ _ _ H2), <- E. apply rev_involutive.
Qed.

Lemma trimmed_nonempty (s : str) : trimmed s -> s <> [].
Proof. intros [H _]. now apply starts_solid_nonempty. Qed.

Lemma is_empty_false (s : str) : is_empty s = false <-> s <> [].
Proof. destruct s; simpl; split; congruence. Qed.

Lemma is_empty_true (s : str) : is_empty s = true <-> s = [].
Proof. destruct s; simpl; split; congruence. Qed.

Lemma trimmed_join (b l : str) : trimmed b -> trimmed l -> trimmed (b ++ txt " " ++ l).
Proof.
  intros [Hb _] [_ Hl]. split.
  - now apply starts_solid_app.
  - rewrite !rev_app_distr, <- app_assoc. now apply starts_solid_app.
Qed.

(** ** The reflow loop *)

Lemma final_cons (a b : ascii) (t : str) : final (a :: b :: t) = final (b :: t).
Proof.
  unfold final. change (rev (a :: b :: t)) with (rev (b :: t) ++ [a]).
  destruct (rev (b :: t)) eqn:E; [|reflexivity].
  apply (f_equal (@length ascii)) in E. rewrite length_rev in E. discriminate.
Qed.

Lemma final_app (s : str) (a : ascii) : final (s ++ [a]) = Some a.
Proof. unfold final. now rewrite rev_app_distr. Qed.

Lemma solid_end_final (s : str) :
  starts_solid (rev s) = true -> exists c, final s = Some c /\ isspace c = false.
Proof.
  unfold final. destruct (rev s) as [|c u]; simpl; [discriminate|].
  intros H. exists c. split; [reflexivity | now apply negb_true_iff].
Qed.

Lemma linefeed_is_space (c : ascii) : is_code 10 c = true -> isspace c = true.
Proof.
  unfold is_code. intros H. apply N.eqb_eq in H.
  unfold isspace, in_range. now rewrite H.
Qed.

Lemma search_end_of_sentence (p : option ascii) (s : str) (c : ascii) :
  final s = Some c -> isspace c = false ->
  found (search_from false end_of_sentence p s) = ends_sentence s.
Proof.
  revert p. induction s as [|a s IH]; intros p Hf Hc; [discriminate|].
  destruct s as [|b t].
  - unfold ends_sentence. rewrite Hf.
    unfold final in Hf. simpl in Hf. injection Hf as ->.
    unfold search_from, match_at. cbn [run end_of_sentence step_char rest flat_map].
    cbn [accepts char_eq].
    replace (existsb (fun a => Ascii.eqb c a) (txt ".!?;:"))
      with (existsb (Ascii.eqb c) (txt ".!?;:")) by reflexivity.
    destruct (existsb (Ascii.eqb c) (txt ".!?;:")); reflexivity.
  - rewrite final_cons in Hf. specialize (IH (Some a) Hf Hc).
    unfold ends_sentence. rewrite final_cons.
    unfold ends_sentence in IH. rewrite <- IH.
    cbn [search_from]. unfold match_at at 1.
    cbn [run end_of_sentence step_char rest flat_map].
    destruct (accepts false (OneOf (txt ".!?;:")) a); [|reflexivity].
    cbn [flat_map run at_eol rest app].
    destruct t as [|d t'].
    + unfold final in Hf. simpl in Hf. injection Hf as ->.
      destruct (is_code 10 c) eqn:E; [|reflexivity].
      apply linefeed_is_space in E. congruence.
    + reflexivity.
Qed.

(** On a trimmed buffer the test [re.search(r"[.!?;:]$", buffer)] reads the
    last character. *)
Lemma end_of_sentence_trimmed (buffer : str) :
  trimmed buffer ->
  found (re_search false end_of_sentence buffer) = ends_sentence buffer.
Proof.
  intros [_ H]. destruct (solid_end_final _ H) as [c [Hf Hc]].
  exact (search_end_of_sentence None buffer c Hf Hc).
Qed.

Lemma merge_step_buffer_ok (merged : list str) (buffer raw_line : str) :
  buffer_ok buffer -> buffer_ok (snd (merge_step (merged, buffer) raw_line)).
Proof.
  intros Hb. unfold merge_step.
  destruct (is_empty (strip raw_line)) eqn:E; [left; reflexivity|].
  apply is_empty_false in E. pose proof (strip_trimmed _ E) as Ht.
  destruct (hard_break (strip raw_line)); [left; reflexivity|].
  destruct (is_empty buffer) eqn:Eb; [right; exact Ht|].
  destruct (found (re_search false end_of_sentence buffer)); simpl.
  - right; exact Ht.
  - right. apply trimmed_join; [|exact Ht].
    destruct Hb as [->|Hb]; [discriminate | exact Hb].
Qed.

Lemma fold_merge_buffer_ok (lines : list str) (st : list str * str) :
  buffer_ok (snd st) -> buffer_ok (snd (fold_left merge_step lines st)).
Proof.
  revert st. induction lines as [|l lines IH]; intros [m b] H; [exact H|].
  cbn [fold_left]. apply IH. now apply merge_step_buffer_ok.
Qed.

Lemma merge_loop_buffer_ok (lines : list str) : buffer_ok (snd (merge_loop lines)).
Proof. apply fold_merge_buffer_ok. now left. Qed.

Lemma merge_loop_snoc (pre : list str) (raw_line : str) :
  merge_loop (pre ++ [raw_line]) = merge_step (merge_loop pre) raw_line.
Proof. unfold merge_loop. now rewrite fold_left_app. Qed.

Lemma flush_trimmed (merged : list str) (buffer : str) :
  trimmed buffer -> flush merged buffer = merged ++ [buffer].
Proof.
  intros H. unfold flush.
  destruct (is_empty buffer) eqn:E.
  - apply is_empty_true in E. now apply trimmed_nonempty in H.
  - now rewrite strip_of_trimmed.
Qed.

(** The merged paragraphs so far are only ever extended. *)
Lemma merge_step_prefix (m0 merged : list str) (buffer raw_line : str) :
  merge_step (m0 ++ merged, buffer) raw_line =
  (m0 ++ fst (merge_step (merged, buffer) raw_line),
   snd (merge_step (merged, buffer) raw_line)).
Proof.
  unfold merge_step, flush.
  destruct (is_empty (strip raw_line)); [destruct (is_empty buffer); simpl; now rewrite ?app_assoc|].
  destruct (hard_break (strip raw_line)); [destruct (is_empty buffer); simpl; now rewrite ?app_assoc|].
  destruct (is_empty buffer); [reflexivity|].
  destruct (found (re_search false end_of_sentence buffer)); simpl; now rewrite ?app_assoc.
Qed.

Lemma fold_merge_prefix (lines : list str) (m0 merged : list str) (buffer : str) :
  fold_left merge_step lines (m0 ++ merged, buffer) =
  (m0 ++ fst (fold_left merge_step lines (merged, buffer)),
   snd (fold_left merge_step lines (merged, buffer))).
Proof.
  revert merged buffer. induction lines as [|l lines IH]; intros merged buffer.
  - reflexivity.
  - cbn [fold_left]. rewrite merge_step_prefix.
    destruct (merge_step (merged, buffer) l) as [m' b']. simpl fst. simpl snd.
    apply IH.
Qed.

Lemma final_In (s : str) (c : ascii) : final s = Some c -> In c s.
Proof.
  unfold final. intros H. apply in_rev.
  destruct (rev s); [discriminate|]. injection H as ->. now left.
Qed.

Lemma final_app_nonempty (w s : str) : s <> [] -> final (w ++ s) = final s.
Proof.
  intros H. unfold final. rewrite rev_app_distr.
  destruct (rev s) eqn:E; [|reflexivity].
  apply (f_equal (@rev ascii)) in E. rewrite rev_involutive in E. contradiction.
Qed.

(** Trimming keeps a last character that is not white space. *)
Lemma strip_keeps_final (l : str) (c : ascii) :
  final l = Some c -> isspace c = false ->
  final (strip l) = Some c /\ trimmed (strip l).
Proof.
  intros Hf Hc.
  assert (Hne : lstrip l <> []).
  { unfold lstrip. destruct (dropwhile_split isspace l) as [w [E F]].
    intros Z. rewrite Z, app_nil_r in E. subst w.
    apply final_In in Hf. rewrite forallb_forall in F. rewrite (F _ Hf) in Hc.
    discriminate. }
  assert (Hfl : final (lstrip l) = Some c).
  { unfold lstrip in *. destruct (dropwhile_split isspace l) as [w [E F]].
    rewrite E in Hf. now rewrite final_app_nonempty in Hf. }
  assert (Hr : strip l = lstrip l).
  { unfold strip, rstrip. unfold final in Hfl.
    destruct (rev (lstrip l)) as [|a u] eqn:E; [discriminate|].
    injection Hfl as ->. rewrite (dropwhile_id _ _ _ Hc), <- E.
    apply rev_involutive. }
  rewrite Hr. split; [exact Hfl|].
  rewrite <- Hr. apply strip_trimmed. now rewrite Hr.
Qed.

Lemma terminal_not_space (c : ascii) :
  existsb (Ascii.eqb c) (txt ".!?;:") = true -> isspace c = false.
Proof.
  simpl. rewrite !orb_true_iff.
  intros [H|[H|[H|[H|[H|H]]]]]; try discriminate;
    apply Ascii.eqb_eq in H; subst c; reflexivity.
Qed.

Lemma ends_sentence_final (l : str) :
  ends_sentence l = true ->
  exists c, final l = Some c /\ existsb (Ascii.eqb c) (txt ".!?;:") = true.
Proof.
  unfold ends_sentence. destruct (final l) as [c|]; [|discriminate].
  intros H. now exists c.
Qed.

Lemma ends_sentence_strip (l : str) :
  ends_sentence l = true -> ends_sentence (strip l) = true.
Proof.
  intros Hl. destruct (ends_sentence_final _ Hl) as [c [Hf Hc]].
  pose proof (terminal_not_space _ Hc) as Hs.
  destruct (strip_keeps_final _ _ Hf Hs) as [Hfs _].
  unfold ends_sentence. now rewrite Hfs.
Qed.

(** Lines that each end a sentence are flushed one by one. *)
Lemma fold_merge_sentences (lines : list str) (merged : list str) (buffer : str) :
  Forall (fun l => ends_sentence (strip l) = true) lines ->
  buffer = [] \/ (trimmed buffer /\ ends_sentence buffer = true) ->
  flush (fst (fold_left merge_step lines (merged, buffer)))
        (snd (fold_left merge_step lines (merged, buffer)))
  = flush merged buffer ++ map strip lines.
Proof.
  intros Hall. revert merged buffer.
  induction Hall as [|l lines Hl _ IH]; intros merged buffer Hb.
  - simpl. now rewrite app_nil_r.
  - pose proof Hl as Hes.
    assert (Ht : trimmed (strip l)).
    { apply strip_trimmed. intros E. rewrite E in Hl. discriminate Hl. }
    cbn [fold_left map]. unfold merge_step at 2 4.
    pose proof (trimmed_nonempty _ Ht) as Hne. apply is_empty_false in Hne.
    rewrite Hne.
    destruct (hard_break (strip l)).
    + rewrite IH by now left. unfold flush at 1. simpl is_empty. cbv iota.
      now rewrite <- app_assoc.
    + destruct Hb as [->|[Htb Heb]].
      * simpl is_empty. cbv iota. rewrite IH by (right; now split).
        rewrite (flush_trimmed _ _ Ht). unfold flush. simpl.
        now rewrite <- app_assoc.
      * pose proof (trimmed_nonempty _ Htb) as Hnb. apply is_empty_false in Hnb.
        rewrite Hnb, (end_of_sentence_trimmed _ Htb), Heb.
        rewrite IH by (right; now split).
        rewrite (strip_of_trimmed _ Htb), !flush_trimmed by assumption.
        now rewrite <- !app_assoc.
Qed.

(** C2. An ordinary line met with a non-empty buffer flushes the buffer and
    opens a new paragraph exactly when the buffer's last character is one of
    [. ! ? ; :], and is otherwise appended after one space; the two wrapped
    lines of the example give one paragraph, and lines that each end in such
    a character, before or after trimming, give one paragraph per line, in
    order. *)
Theorem merge_lines_punctuation_boundary :
  (forall (pre : list str) (raw_line : str) (merged : list str) (buffer : str),
      merge_loop pre = (merged, buffer) ->
      buffer <> [] ->
      strip raw_line <> [] ->
      hard_break (strip raw_line) = false ->
      merge_loop (pre ++ [raw_line]) =
        if ends_sentence buffer
        then (merged ++ [buffer], strip raw_line)
        else (merged, buffer ++ txt " " ++ strip raw_line))
  /\ merge_lines [txt "The court finds"; txt "that the claim is valid."]
     = [txt "The court finds that the claim is valid."]
  /\ (forall lines : list str,
        Forall (fun l => ends_sentence l = true
                         \/ ends_sentence (strip l) = true) lines ->
        merge_lines lines = map strip lines).
Proof.
  split; [|split].
  - intros pre raw_line merged buffer Hloop Hb Hl Hh.
    rewrite merge_loop_snoc, Hloop. unfold merge_step.
    apply is_empty_false in Hl. rewrite Hl, Hh.
    pose proof (merge_loop_buffer_ok pre) as Hok. rewrite Hloop in Hok.
    cbn [snd] in Hok. destruct Hok as [Hok|Hok]; [contradiction|].
    apply is_empty_false in Hb. rewrite Hb.
    rewrite (end_of_sentence_trimmed _ Hok), (strip_of_trimmed _ Hok).
    reflexivity.
  - vm_compute. reflexivity.
  - intros lines Hall0.
    assert (Hall : Forall (fun l => ends_sentence (strip l) = true) lines).
    { eapply Forall_impl; [|exact Hall0]. cbv beta.
      intros l [H|H]; [now apply ends_sentence_strip | exact H]. }
    assert (H : flush (fst (merge_loop lines)) (snd (merge_loop lines))
                = map strip lines)
      by exact (fold_merge_sentences lines [] [] Hall (or_introl eq_refl)).
    unfold merge_lines. destruct (merge_loop lines) as [m b]. exact H.
Qed.

(** The rule of C2 on a buffer that ends a sentence and on one that does
    not. *)
Lemma merge_lines_punctuation_boundary_witness :
  merge_loop ([txt "Done."] ++ [txt "next"]) = ([txt "Done."], txt "next")
  /\ merge_loop ([txt "wrapped"] ++ [txt " line "]) = ([], txt "wrapped line")
  /\ merge_lines [txt " One."; txt "TWO!"; txt "three;"]
     = [txt "One."; txt "TWO!"; txt "three;"].
Proof.
  split; [|split].
  - apply (proj1 merge_lines_punctuation_boundary
             [txt "Done."] (txt "next") [] (txt "Done."));
      [reflexivity | discriminate | vm_compute; discriminate | vm_compute; reflexivity].
  - apply (proj1 merge_lines_punctuation_boundary
             [txt "wrapped"] (txt " line ") [] (txt "wrapped"));
      [reflexivity | discriminate | vm_compute; discriminate | vm_compute; reflexivity].
  - apply (proj2 (proj2 merge_lines_punctuation_boundary)
             [txt " One."; txt "TWO!"; txt "three;"]).
    repeat constructor; left; reflexivity.
Defined.

Lemma flush_app (m0 merged : list str) (buffer : str) :
  flush (m0 ++ merged) buffer = m0 ++ flush merged buffer.
Proof. unfold flush. destruct (is_empty buffer); [reflexivity | now rewrite app_assoc]. Qed.

Lemma merge_lines_eq (lines : list str) :
  merge_lines lines = flush (fst (merge_loop lines)) (snd (merge_loop lines)).
Proof. unfold merge_lines. now destruct (merge_loop lines). Qed.

Lemma merge_lines_cons_state (post : list str) (m0 : list str) :
  flush (fst (fold_left merge_step post (m0, [])))
        (snd (fold_left merge_step post (m0, [])))
  = m0 ++ merge_lines post.
Proof.
  rewrite merge_lines_eq. unfold merge_loop.
  pose proof (fold_merge_prefix post m0 [] []) as H. rewrite app_nil_r in H.
  unfold str in *. rewrite H. cbn [fst snd]. apply flush_app.
Qed.

(** ** What the matcher computes *)

Lemma reads_nil (ic : bool) (k : cclass) (c c' : cursor) :
  reads ic k [] c c' <-> c' = c.
Proof.
  unfold reads. simpl. split.
  - intros (H1 & _ & H2 & H3). destruct c, c'. simpl in *. congruence.
  - intros ->. auto.
Qed.

Lemma reads_cons (ic : bool) (k : cclass) (a : ascii) (w : str) (c c' : cursor) :
  reads ic k (a :: w) c c' <->
  exists t, rest c = a :: t /\ accepts ic k a = true
            /\ reads ic k w (Cur (Some a) t (cap c)) c'.
Proof.
  unfold reads. simpl. split.
  - intros (H1 & H2 & H3 & H4). apply andb_true_iff in H2. destruct H2 as [Ha Hw].
    exists (w ++ rest c'). repeat split; auto.
  - intros (t & H1 & Ha & H2 & Hw & H3 & H4). subst t.
    rewrite Ha, Hw. repeat split; auto.
Qed.

Lemma in_step_char (ic : bool) (k : cclass) (c c' : cursor) :
  In c' (step_char ic k c) <-> exists a, reads ic k [a] c c'.
Proof.
  unfold step_char. split.
  - destruct (rest c) as [|a t] eqn:E; [intros []|].
    destruct (accepts ic k a) eqn:Ha; [|intros []].
    intros [<-|[]]. exists a. apply reads_cons. exists t.
    split; [auto | split; [auto | now apply reads_nil]].
  - intros [a H]. apply reads_cons in H. destruct H as (t & E & Ha & H).
    apply reads_nil in H. rewrite E, Ha. left. now symmetry.
Qed.

Lemma star_from_self (ic : bool) (k : cclass) (p : option ascii) (s : str)
  (g : option str) : In (Cur p s g) (star_from ic k p s g).
Proof.
  destruct s as [|a t]; simpl; [now left|].
  destruct (accepts ic k a); [|now left].
  apply in_or_app. right. now left.
Qed.

Lemma in_star_from (ic : bool) (k : cclass) (p : option ascii) (s : str)
  (g : option str) (c' : cursor) :
  In c' (star_from ic k p s g) <-> exists w, reads ic k w (Cur p s g) c'.
Proof.
  split.
  - revert p. induction s as [|a t IH]; intros p; simpl.
    + intros [<-|[]]. exists []. now apply reads_nil.
    + destruct (accepts ic k a) eqn:Ha.
      * intros H. apply in_app_or in H. destruct H as [H|[<-|[]]].
        -- destruct (IH _ H) as [w Hw]. exists (a :: w).
           apply reads_cons. exists t. auto.
        -- exists []. now apply reads_nil.
      * intros [<-|[]]. exists []. now apply reads_nil.
  - intros [w H]. revert p s H. induction w as [|a w IH]; intros p s H.
    + apply reads_nil in H. subst c'. apply star_from_self.
    + apply reads_cons in H. destruct H as (t & E & Ha & H).
      simpl in E. subst s. simpl. rewrite Ha. apply in_or_app. left.
      now apply IH.
Qed.

Lemma in_rep_from (ic : bool) (k : cclass) (n : nat) (c c' : cursor) :
  In c' (rep_from ic k n c) <-> exists w, length w = n /\ reads ic k w c c'.
Proof.
  revert c. induction n as [|n IH]; intros c; simpl.
  - split.
    + intros [<-|[]]. exists []. split; [reflexivity | now apply reads_nil].
    + intros (w & L & H). apply length_zero_iff_nil in L. subst w.
      apply reads_nil in H. now left.
  - rewrite in_flat_map. split.
    + intros (c1 & H1 & H2). apply in_step_char in H1. destruct H1 as [a H1].
      apply IH in H2. destruct H2 as (w & L & H2).
      apply reads_cons in H1. destruct H1 as (t & E & Ha & H1).
      apply reads_nil in H1. subst c1.
      exists (a :: w). split; [simpl; congruence|].
      apply reads_cons. exists t. auto.
    + intros (w & L & H). destruct w as [|a w]; [discriminate|].
      apply reads_cons in H. destruct H as (t & E & Ha & H).
      exists (Cur (Some a) t (cap c)). split.
      * apply in_step_char. exists a. apply reads_cons. exists t.
        split; [auto | split; [auto | now apply reads_nil]].
      * apply IH. exists w. split; [simpl in L; congruence | exact H].
Qed.

(** The matcher and the relation agree. *)
Theorem run_matches (ic : bool) (r : regex) :
  forall c c' : cursor, In c' (run ic r c) <-> matches ic r c c'.
Proof.
  induction r as [|k|k|k|n k|r1 IH1 r2 IH2|r1 IH1 r2 IH2|r1 IH1| | |];
    intros c c'; cbn [run matches].
  - split; [intros [<-|[]]; reflexivity | intros ->; now left].
  - apply in_step_char.
  - destruct c as [p s g]. apply in_star_from.
  - rewrite in_flat_map. split.
    + intros (c1 & H1 & H2). apply in_step_char in H1. destruct H1 as [a H1].
      destruct c1 as [p1 s1 g1]. apply in_star_from in H2. destruct H2 as [w H2].
      apply reads_cons in H1. destruct H1 as (t & E & Ha & H1).
      apply reads_nil in H1. injection H1 as -> -> ->.
      exists (a :: w). split; [discriminate|].
      apply reads_cons. exists t. auto.
    + intros (w & Hne & H). destruct w as [|a w]; [contradiction|].
      apply reads_cons in H. destruct H as (t & E & Ha & H).
      exists (Cur (Some a) t (cap c)). split.
      * apply in_step_char. exists a. apply reads_cons. exists t.
        split; [auto | split; [auto | now apply reads_nil]].
      * apply in_star_from. now exists w.
  - apply in_rep_from.
  - rewrite in_flat_map. split.
    + intros (c1 & H1 & H2). exists c1. split; [now apply IH1 | now apply IH2].
    + intros (c1 & H1 & H2). exists c1. split; [now apply IH1 | now apply IH2].
  - rewrite in_app_iff, IH1, IH2. reflexivity.
  - rewrite in_map_iff. split.
    + intros (c1 & E & H). exists c1. split; [now apply IH1 | now symmetry].
    + intros (c1 & H & E). exists c1. split; [now symmetry | now apply IH1].
  - destruct (prev c); split.
    + intros [].
    + intros [H _]. discriminate.
    + intros [<-|[]]. auto.
    + intros [_ ->]. now left.
  - destruct (at_eol c); split.
    + intros [<-|[]]. auto.
    + intros [_ ->]. now left.
    + intros [].
    + intros [H _]. discriminate.
  - destruct (at_boundary c); split.
    + intros [<-|[]]. auto.
    + intros [_ ->]. now left.
    + intros [].
    + intros [H _]. discriminate.
Qed.

Lemma after_app (p : option ascii) (w v : str) :
  after p (w ++ v) = after (after p w) v.
Proof. unfold after. apply fold_left_app. Qed.

Lemma reads_span (ic : bool) (k : cclass) (w : str) (c c' : cursor) :
  reads ic k w c c' <-> span w c c' /\ forallb (accepts ic k) w = true.
Proof. unfold reads, span, moves. tauto. Qed.

Lemma moves_refl (c : cursor) : moves [] c c.
Proof. split; reflexivity. Qed.

Lemma moves_trans (w v : str) (c c1 c' : cursor) :
  moves w c c1 -> moves v c1 c' -> moves (w ++ v) c c'.
Proof.
  intros [E1 P1] [E2 P2]. split.
  - now rewrite E1, E2, app_assoc.
  - now rewrite after_app, <- P1.
Qed.

Lemma span_trans (w v : str) (c c1 c' : cursor) :
  span w c c1 -> span v c1 c' -> span (w ++ v) c c'.
Proof.
  intros [M1 G1] [M2 G2]. split; [now apply moves_trans with c1 | congruence].
Qed.

Lemma span_nil (c c' : cursor) : span [] c c' <-> c' = c.
Proof.
  unfold span, moves. simpl. split.
  - intros [[E P] G]. destruct c, c'. simpl in *. congruence.
  - intros ->. auto.
Qed.

(** The position reached from [Cur p (w ++ s) g] by reading [w]. *)
Lemma span_intro (p : option ascii) (w s : str) (g : option str) :
  span w (Cur p (w ++ s) g) (Cur (after p w) s g).
Proof. repeat split. Qed.

Lemma span_unique (w : str) (p : option ascii) (s : str) (g : option str)
  (c' : cursor) :
  span w (Cur p (w ++ s) g) c' -> c' = Cur (after p w) s g.
Proof.
  intros [[E P] G]. destruct c' as [p' s' g']. simpl in *.
  apply app_inv_head in E. congruence.
Qed.

Lemma span_split (w v : str) (c c' : cursor) :
  span (w ++ v) c c' ->
  exists c1, span w c c1 /\ span v c1 c'.
Proof.
  intros [[E P] G].
  exists (Cur (after (prev c) w) (v ++ rest c') (cap c)). split.
  - split; [split|]; simpl; [now rewrite E, app_assoc | reflexivity | reflexivity].
  - split; [split|]; simpl; [reflexivity | now rewrite P, after_app | exact G].
Qed.

Lemma matches_lits (ic : bool) (w : str) (c c' : cursor) :
  matches ic (lits w) c c' <-> exists x, lit_eq ic w x = true /\ span x c c'.
Proof.
  revert c. induction w as [|a w IH]; intros c; cbn [lits matches].
  - split.
    + intros ->. exists []. split; [reflexivity | now apply span_nil].
    + intros (x & L & S). destruct x; [|discriminate]. now apply span_nil.
  - split.
    + intros (c1 & (b & H1) & H2). apply IH in H2. destruct H2 as (x & L & S).
      apply reads_span in H1. destruct H1 as [S1 A]. simpl in A.
      exists ([b] ++ x). split.
      * simpl. rewrite L. destruct (char_eq ic a b); [reflexivity | discriminate].
      * now apply span_trans with c1.
    + intros (x & L & S). destruct x as [|b x]; [discriminate|]. simpl in L.
      apply andb_true_iff in L. destruct L as [Lb L].
      change (b :: x) with ([b] ++ x) in S. apply span_split in S.
      destruct S as (c1 & S1 & S2). exists c1. split.
      * exists b. apply reads_span. split; [exact S1 | simpl; now rewrite Lb].
      * apply IH. now exists x.
Qed.

(** A match only moves forward in the subject. *)
Lemma matches_moves (ic : bool) (r : regex) :
  forall c c', matches ic r c c' -> exists w, moves w c c'.
Proof.
  induction r as [|k|k|k|n k|r1 IH1 r2 IH2|r1 IH1 r2 IH2|r1 IH1| | |];
    intros c c'; cbn [matches].
  - intros ->. exists []. apply moves_refl.
  - intros (a & H). apply reads_span in H. exists [a]. apply H.
  - intros (w & H). apply reads_span in H. exists w. apply H.
  - intros (w & _ & H). apply reads_span in H. exists w. apply H.
  - intros (w & _ & H). apply reads_span in H. exists w. apply H.
  - intros (c1 & H1 & H2). destruct (IH1 _ _ H1) as [w Hw].
    destruct (IH2 _ _ H2) as [v Hv]. exists (w ++ v). now apply moves_trans with c1.
  - intros [H|H]; [now apply IH1 | now apply IH2].
  - intros (c1 & H & ->). destruct (IH1 _ _ H) as [w Hw]. exists w. exact Hw.
  - intros [_ ->]. exists []. apply moves_refl.
  - intros [_ ->]. exists []. apply moves_refl.
  - intros [_ ->]. exists []. apply moves_refl.
Qed.

Lemma consumed_moves (w : str) (c c' : cursor) : moves w c c' -> consumed c c' = w.
Proof.
  intros [E _]. unfold consumed. rewrite E, length_app.
  replace (length w + length (rest c') - length (rest c')) with (length w) by lia.
  rewrite firstn_app, firstn_all, Nat.sub_diag. simpl. apply app_nil_r.
Qed.

(** ** Searching *)

Lemma match_at_none (ic : bool) (r : regex) (c : cursor) :
  match_at ic r c = None <-> run ic r c = [].
Proof. unfold match_at. destruct (run ic r c); split; congruence. Qed.

Lemma match_at_some (ic : bool) (r : regex) (c c' : cursor) :
  match_at ic r c = Some c' -> matches ic r c c'.
Proof.
  unfold match_at. destruct (run ic r c) as [|x l] eqn:E; [discriminate|].
  intros H. injection H as ->. apply run_matches. rewrite E. now left.
Qed.

Lemma matches_match_at (ic : bool) (r : regex) (c c' : cursor) :
  matches ic r c c' -> match_at ic r c <> None.
Proof.
  intros H. apply run_matches in H. rewrite match_at_none.
  intros E. now rewrite E in H.
Qed.

(** A successful search reports a match at the leftmost position that has
    one. *)
Lemma search_from_some (ic : bool) (r : regex) (s : str) :
  forall (p : option ascii) (c' : cursor),
    search_from ic r p s = Some c' ->
    exists pre post,
      s = pre ++ post
      /\ match_at ic r (Cur (after p pre) post None) = Some c'
      /\ forall pre' post', s = pre' ++ post' -> length pre' < length pre ->
                            run ic r (Cur (after p pre') post' None) = [].
Proof.
  induction s as [|a t IH]; intros p c'; cbn [search_from].
  - destruct (match_at ic r (Cur p [] None)) as [x|] eqn:E; [|discriminate].
    intros H. injection H as ->. exists [], []. repeat split; auto.
    intros pre' post' _ L. simpl in L. lia.
  - destruct (match_at ic r (Cur p (a :: t) None)) as [x|] eqn:E.
    + intros H. injection H as ->. exists [], (a :: t). repeat split; auto.
      intros pre' post' _ L. simpl in L. lia.
    + intros H. destruct (IH _ _ H) as (pre & post & E1 & E2 & E3).
      exists (a :: pre), post. split; [simpl; congruence|]. split; [exact E2|].
      intros pre' post' E' L. destruct pre' as [|b pre'].
      * simpl in *. subst post'. now apply match_at_none.
      * simpl in E'. injection E' as <- E'. apply (E3 pre' post' E').
        simpl in L. lia.
Qed.

Lemma search_from_none (ic : bool) (r : regex) (s : str) :
  forall p : option ascii,
    search_from ic r p s = None ->
    forall pre post, s = pre ++ post ->
                     run ic r (Cur (after p pre) post None) = [].
Proof.
  induction s as [|a t IH]; intros p; cbn [search_from].
  - destruct (match_at ic r (Cur p [] None)) eqn:E; [discriminate|].
    intros _ pre post H. symmetry in H. apply app_eq_nil in H.
    destruct H as [-> ->]. now apply match_at_none.
  - destruct (match_at ic r (Cur p (a :: t) None)) eqn:E; [discriminate|].
    intros H pre post E'. destruct pre as [|b pre].
    + simpl in *. subst post. now apply match_at_none.
    + simpl in E'. injection E' as <- E'. exact (IH _ H pre post E').
Qed.

(** ** Case folding of single characters *)

Ltac all_chars a := destruct a as [[] [] [] [] [] [] [] []].

Lemma tolower_cased (a : ascii) :
  char_isupper a = true -> char_iscased (tolower a) = true.
Proof. all_chars a; vm_compute; congruence. Qed.

Lemma space_uncased (a : ascii) : isspace a = true -> char_iscased a = false.
Proof. all_chars a; vm_compute; congruence. Qed.

Lemma decimal_uncased (a : ascii) : isdecimal a = true -> char_iscased a = false.
Proof. all_chars a; vm_compute; congruence. Qed.

Lemma tolower_uncased (x : ascii) : char_iscased x = false -> tolower x = x.
Proof.
  unfold char_iscased, tolower. intros H. apply orb_false_iff in H.
  destruct H as [-> _]. reflexivity.
Qed.

(** Ignoring case, a caseless character is matched by itself only. *)
Lemma char_eq_uncased (x a : ascii) :
  char_iscased x = false -> char_eq true x a = true -> a = x.
Proof.
  intros Hx H. unfold char_eq in H. apply Ascii.eqb_eq in H.
  rewrite (tolower_uncased _ Hx) in H.
  destruct (char_isupper a) eqn:Ha.
  - apply tolower_cased in Ha. congruence.
  - unfold tolower in H. now rewrite Ha in H.
Qed.

(** The ordinal indicator is lower-case but is no letter's lower-case form. *)
Lemma char_eq_ord_masc (a : ascii) : char_eq true ord_masc a = true -> a = ord_masc.
Proof. all_chars a; vm_compute; intros H; first [reflexivity | discriminate H]. Qed.

Lemma char_eq_sym (x a : ascii) : char_eq true x a = char_eq true a x.
Proof. unfold char_eq. apply Ascii.eqb_sym. Qed.

Lemma char_eq_refl (x : ascii) : char_eq true x x = true.
Proof. unfold char_eq. apply Ascii.eqb_refl. Qed.

(** A cased literal matches no white space and no digit. *)
Lemma char_eq_not_space (x a : ascii) :
  isspace x = false -> isspace a = true -> char_eq true x a = false.
Proof.
  intros Hx Ha. destruct (char_eq true x a) eqn:E; [|reflexivity].
  rewrite char_eq_sym in E.
  apply char_eq_uncased in E; [congruence | now apply space_uncased].
Qed.

Lemma char_eq_not_decimal (x a : ascii) :
  isdecimal x = false -> isdecimal a = true -> char_eq true x a = false.
Proof.
  intros Hx Ha. destruct (char_eq true x a) eqn:E; [|reflexivity].
  rewrite char_eq_sym in E.
  apply char_eq_uncased in E; [congruence | now apply decimal_uncased].
Qed.

(** ** The case number *)

Ltac and_hyps :=
  repeat match goal with
         | H : _ && _ = true |- _ => apply andb_true_iff in H; destruct H
         | H : forallb _ (_ :: _) = true |- _ => simpl in H
         end.

Ltac explode w L :=
  repeat (destruct w as [|? w]; [discriminate L|]);
  try (destruct w; [clear L | discriminate L]).

Ltac sep_char H :=
  cbn [forallb accepts] in H; rewrite andb_true_r in H;
  apply char_eq_uncased in H; [subst | reflexivity].

Lemma matches_case_token_shape (c c' : cursor) :
  matches true case_token c c' ->
  exists tok, is_case_number tok = true /\ span tok c c'.
Proof.
  cbn [matches case_token].
  intros (c1 & (w1 & L1 & R1) & c2 & (a1 & S1) & c3 & (w2 & L2 & R2)
          & c4 & (a2 & S2) & c5 & (w3 & L3 & R3) & c6 & (a3 & S3)
          & c7 & (d & R4) & c8 & (a4 & S4) & c9 & (w5 & L5 & R5)
          & c10 & (a5 & S5) & (w6 & L6 & R6)).
  apply reads_span in R1, S1, R2, S2, R3, S3, R4, S4, R5, S5, R6.
  destruct R1 as [R1 D1], S1 as [S1 E1], R2 as [R2 D2], S2 as [S2 E2],
    R3 as [R3 D3], S3 as [S3 E3], R4 as [R4 D4], S4 as [S4 E4],
    R5 as [R5 D5], S5 as [S5 E5], R6 as [R6 D6].
  exists (w1 ++ [a1] ++ w2 ++ [a2] ++ w3 ++ [a3] ++ [d] ++ [a4] ++ w5 ++ [a5] ++ w6).
  split.
  - sep_char E1. sep_char E2. sep_char E3. sep_char E4. sep_char E5.
    explode w1 L1. explode w2 L2. explode w3 L3. explode w5 L5. explode w6 L6.
    cbn [accepts] in D1, D2, D3, D4, D5, D6. and_hyps.
    unfold is_case_number. cbn.
    repeat match goal with H : isdecimal _ = true |- _ => rewrite H; clear H end.
    reflexivity.
  - repeat (eapply span_trans; [eassumption|]). exact R6.
Qed.

Lemma reads_intro (ic : bool) (k : cclass) (w s : str) (p : option ascii)
  (g : option str) :
  forallb (accepts ic k) w = true ->
  reads ic k w (Cur p (w ++ s) g) (Cur (after p w) s g).
Proof. intros H. apply reads_span. split; [apply span_intro | exact H]. Qed.

Lemma conforms_cons (t : ascii) (ts s : str) :
  conforms (t :: ts) s = true ->
  exists c cs, s = c :: cs
               /\ (if char_isupper t then isdecimal c else Ascii.eqb c t) = true
               /\ conforms ts cs = true.
Proof.
  destruct s as [|c cs]; simpl; [discriminate|].
  intros H. apply andb_true_iff in H. destruct H. now exists c, cs.
Qed.

Lemma conforms_nil (s : str) : conforms [] s = true -> s = [].
Proof. destruct s; simpl; [reflexivity | discriminate]. Qed.

Lemma case_number_matches (tok s : str) (p : option ascii) (g : option str) :
  is_case_number tok = true ->
  matches true case_token (Cur p (tok ++ s) g) (Cur (after p tok) s g).
Proof.
  unfold is_case_number. intros H.
  unfold txt in H. cbn [list_ascii_of_string] in H.
  repeat match goal with
         | H : conforms (_ :: _) _ = true |- _ =>
             apply conforms_cons in H;
             let c := fresh "a" in
             let E := fresh "E" in
             destruct H as (c & ? & -> & E & H); cbn in E
         end.
  apply conforms_nil in H. subst.
  repeat match goal with
         | H : Ascii.eqb _ _ = true |- _ => apply Ascii.eqb_eq in H; subst
         end.
  cbn [matches case_token app].
  repeat match goal with
  | |- exists c1, (exists w, length w = ?n /\ reads _ _ w (Cur ?p ?s ?g) c1) /\ _ =>
      eexists; split;
      [ exists (firstn n s); split; [reflexivity|];
        apply (reads_intro true Digit (firstn n s) (skipn n s) p g);
        cbn; repeat match goal with H : isdecimal _ = true |- _ => rewrite H end;
        reflexivity |]; cbn [firstn skipn after fold_left app]
  | |- exists c1, (exists a, reads _ _ [a] (Cur ?p (?x :: ?s) ?g) c1) /\ _ =>
      eexists; split;
      [ exists x; apply (reads_intro true _ [x] s p g);
        cbn [forallb accepts]; rewrite ?char_eq_refl;
        repeat match goal with H : isdecimal _ = true |- _ => rewrite H end;
        reflexivity |]; cbn [after fold_left]
  end.
  exists [a20; a21; a22; a23]. split; [reflexivity|].
  apply (reads_intro true Digit [a20; a21; a22; a23] s _ g).
  cbn. repeat match goal with H : isdecimal _ = true |- _ => rewrite H end.
  reflexivity.
Qed.

Lemma padrao_numero_shape (c c' : cursor) :
  matches true padrao_numero c c' ->
  exists lab tok,
    label_shape lab /\ is_case_number tok = true
    /\ rest c = lab ++ tok ++ rest c' /\ cap c' = Some tok.
Proof.
  cbn [matches padrao_numero].
  intros (c1 & L & c2 & (ws1 & N1 & R1) & c3 & (n & R2) & c4 & (o & R3)
          & c5 & (col & R4) & c6 & (ws2 & R5) & c7 & T & ->).
  apply matches_lits in L. destruct L as (w & Lw & Sw).
  apply matches_case_token_shape in T. destruct T as (tok & Ht & St).
  apply reads_span in R1, R2, R3, R4, R5.
  destruct R1 as [S1 A1], R2 as [S2 A2], R3 as [S3 A3], R4 as [S4 A4],
    R5 as [S5 A5].
  sep_char A4.
  exists (w ++ ws1 ++ [n] ++ [o] ++ txt ":" ++ ws2), tok.
  split; [|split; [exact Ht | split]].
  - exists w, ws1, n, o, ws2. repeat split; auto.
    + cbn [forallb accepts] in A2. now rewrite andb_true_r in A2.
    + cbn [forallb accepts existsb] in A3.
      rewrite andb_true_r, orb_false_r in A3. apply orb_true_iff in A3.
      destruct A3 as [A3|A3]; [left | right].
      * now apply char_eq_ord_masc.
      * apply char_eq_uncased in A3; [exact A3 | reflexivity].
  - assert (S : span ((w ++ ws1 ++ [n] ++ [o] ++ txt ":" ++ ws2) ++ tok) c c7).
    { rewrite <- !app_assoc.
      repeat (eapply span_trans; [eassumption|]). exact St. }
    destruct S as [[E _] _]. simpl rest. rewrite E. now rewrite <- !app_assoc.
  - simpl. f_equal. apply consumed_moves. apply St.
Qed.

Lemma padrao_numero_intro (lab tok post : str) (p : option ascii) :
  label_shape lab -> is_case_number tok = true ->
  exists c', matches true padrao_numero (Cur p (lab ++ tok ++ post) None) c'.
Proof.
  intros (w & ws1 & n & o & ws2 & -> & Lw & N1 & A1 & A2 & A3 & A5) Ht.
  eexists. cbn [matches padrao_numero]. rewrite <- !app_assoc.
  eexists. split.
  { apply matches_lits. exists w. split; [exact Lw | apply span_intro]. }
  eexists. split.
  { exists ws1. split; [exact N1 | now apply reads_intro]. }
  eexists. split.
  { exists n. apply (reads_intro true (Lit "n") [n]).
    cbn [forallb accepts]. now rewrite A2. }
  eexists. split.
  { exists o. apply (reads_intro true (OneOf [ord_masc; "#"%char]) [o]).
    destruct A3 as [->| ->]; reflexivity. }
  eexists. split.
  { exists ":"%char. apply (reads_intro true (Lit ":") [":"%char]). reflexivity. }
  eexists. split.
  { exists ws2. now apply reads_intro. }
  eexists. split.
  { apply case_number_matches. exact Ht. }
  reflexivity.
Qed.

(** A labelled case number makes the search succeed, and a successful search
    reports the leftmost labelled case number. *)
Lemma search_padrao_numero (text : str) :
  match re_search true padrao_numero text with
  | Some m =>
      exists pre tok,
        cap m = Some tok /\ labelled_at text pre tok
        /\ forall pre0 tok0, labelled_at text pre0 tok0 -> length pre <= length pre0
  | None => forall pre tok, ~ labelled_at text pre tok
  end.
Proof.
  assert (Hrun : forall pre tok lab post,
             text = pre ++ lab ++ tok ++ post -> label_shape lab ->
             is_case_number tok = true ->
             run true padrao_numero
                 (Cur (after None pre) (lab ++ tok ++ post) None) <> []).
  { intros pre tok lab post _ Hl Ht E.
    destruct (padrao_numero_intro lab tok post (after None pre) Hl Ht) as [c' H].
    apply run_matches in H. now rewrite E in H. }
  unfold re_search. destruct (search_from true padrao_numero None text) as [m|] eqn:S.
  - destruct (search_from_some _ _ _ _ _ S) as (pre & post & E & M & Hleft).
    apply match_at_some in M. apply padrao_numero_shape in M.
    destruct M as (lab & tok & Hl & Ht & Er & Hc). simpl in Er.
    exists pre, tok. split; [exact Hc | split].
    + exists lab, (rest m). now rewrite <- Er.
    + intros pre0 tok0 (lab0 & post0 & E0 & Hl0 & Ht0).
      destruct (Nat.le_gt_cases (length pre) (length pre0)) as [Hle|Hgt]; [exact Hle|].
      exfalso. apply (Hrun pre0 tok0 lab0 post0 E0 Hl0 Ht0).
      now apply Hleft.
  - intros pre tok (lab & post & E & Hl & Ht).
    apply (Hrun pre tok lab post E Hl Ht).
    now apply (search_from_none _ _ _ _ S).
Qed.

Lemma formatar_conforms (stem : str) :
  length stem = 20 -> forallb isdecimal stem = true ->
  is_case_number (formatar stem) = true.
Proof.
  intros L D. explode stem L. and_hyps.
  unfold is_case_number, formatar, slice. cbn.
  repeat match goal with H : isdecimal _ = true |- _ => rewrite H; clear H end.
  reflexivity.
Qed.

Lemma decimal_is_digit (s : str) :
  forallb isdecimal s = true -> forallb isdigit s = true.
Proof.
  induction s as [|a s IH]; simpl; [reflexivity|].
  intros H. apply andb_true_iff in H. destruct H as [Ha H].
  rewrite (IH H). unfold isdigit. now rewrite Ha.
Qed.

(** C1, as stated, fails: with two spaces between [Processo] and [n] the
    text holds no match of the label as the specification words it and the
    file name has no 20-digit stem, so the specification gives absent, but
    the resolver returns the number. *)
Lemma extrair_numero_processo_literal_label_counterexample :
  let text := txt "Processo  n" ++ [ord_masc]
              ++ txt ": 0000498-37.2018.8.06.0127" in
  let nome_arquivo := txt "decisao.pdf" in
  found (re_search true padrao_literal_label text) = false
  /\ length (path_stem nome_arquivo) <> 20
  /\ extrair_numero_processo text nome_arquivo
     = Some (txt "0000498-37.2018.8.06.0127").
Proof. vm_compute. repeat split; discriminate. Qed.

(** A stem of twenty superscript digits passes [str.isdigit] and is
    formatted, into a string that is not of the format. *)
Example superscript_stem_formatted :
  let nome_arquivo := repeat sup_two 20 ++ txt ".pdf" in
  exists r, extrair_numero_processo [] nome_arquivo = Some r
            /\ is_case_number r = false.
Proof. eexists. split; vm_compute; reflexivity. Qed.

(** C1 (amended). When the text has a labelled case number (the label being
    [Processo], one or more white-space characters, [n], the ordinal
    indicator or [#], a colon and optional white space, case ignored) the
    resolver returns the number of the leftmost one, as written.  When it has
    none, a stem of 20 decimal digits is returned regrouped by the fixed
    offsets, and a stem of another length or with a character that is no
    digit gives absent.  The results of both rules are of the format. *)
Theorem extrair_numero_processo_resolution :
  forall text nome_arquivo : str,
    (forall pre tok, labelled_at text pre tok ->
       exists pre' tok',
         extrair_numero_processo text nome_arquivo = Some tok'
         /\ labelled_at text pre' tok'
         /\ is_case_number tok' = true
         /\ forall pre0 tok0, labelled_at text pre0 tok0 ->
                              length pre' <= length pre0)
    /\ ((forall pre tok, ~ labelled_at text pre tok) ->
        let stem := path_stem nome_arquivo in
        (length stem = 20 -> forallb isdecimal stem = true ->
         extrair_numero_processo text nome_arquivo
         = Some (slice stem 0 7 ++ txt "-" ++ slice stem 7 9 ++ txt "."
                 ++ slice stem 9 13 ++ txt "." ++ slice stem 13 14 ++ txt "."
                 ++ slice stem 14 16 ++ txt "." ++ slice stem 16 20)
         /\ is_case_number (formatar stem) = true)
        /\ (length stem <> 20 \/ forallb isdigit stem = false ->
            extrair_numero_processo text nome_arquivo = None)).
Proof.
  intros text nome_arquivo.
  pose proof (search_padrao_numero text) as S.
  unfold extrair_numero_processo.
  destruct (re_search true padrao_numero text) as [m|].
  - destruct S as (pre' & tok' & Hc & Hl & Hleft). split.
    + intros _ _ _. exists pre', tok'. repeat split; auto.
      destruct Hl as (lab & post & _ & _ & Ht). exact Ht.
    + intros Hno. exfalso. exact (Hno _ _ Hl).
  - split.
    + intros pre tok H. exfalso. exact (S _ _ H).
    + intros _. set (stem := path_stem nome_arquivo). split.
      * intros L D. rewrite L.
        unfold str_isdigit. rewrite (decimal_is_digit _ D).
        assert (E : is_empty stem = false)
          by (destruct stem; [discriminate L | reflexivity]).
        rewrite E. split; [reflexivity | now apply formatar_conforms].
      * intros [L|D].
        -- apply Nat.eqb_neq in L. now rewrite L.
        -- unfold str_isdigit. rewrite D. now rewrite !andb_false_r.
Qed.

(** The two examples of the specification, and the three rules at work. *)
Lemma extrair_numero_processo_resolution_witness :
  let text := txt "Autos. Processo n" ++ [ord_masc]
              ++ txt ": 0000498-37.2018.8.06.0127 - Vara" in
  (exists pre' tok',
      extrair_numero_processo text (txt "x.pdf") = Some tok'
      /\ labelled_at text pre' tok' /\ is_case_number tok' = true
      /\ forall pre0 tok0, labelled_at text pre0 tok0 -> length pre' <= length pre0)
  /\ extrair_numero_processo text (txt "x.pdf")
     = Some (txt "0000498-37.2018.8.06.0127")
  /\ extrair_numero_processo [] (txt "00004983720188060127.pdf")
     = Some (txt "0000498-37.2018.8.06.0127")
  /\ extrair_numero_processo [] (txt "0000498372018806012.pdf") = None.
Proof.
  intros text.
  assert (Hno : forall pre tok, ~ labelled_at [] pre tok).
  { intros pre tok (lab & post & E & (w & ws1 & n & o & ws2 & -> & _) & _).
    symmetry in E. apply app_eq_nil in E. destruct E as [_ E].
    apply app_eq_nil in E. destruct E as [E _].
    apply app_eq_nil in E. destruct E as [_ E].
    apply app_eq_nil in E. destruct E as [_ E]. discriminate E. }
  split; [|split; [|split]].
  - apply (proj1 (extrair_numero_processo_resolution text (txt "x.pdf"))
             (txt "Autos. ") (txt "0000498-37.2018.8.06.0127")).
    exists (txt "Processo n" ++ [ord_masc] ++ txt ": "), (txt " - Vara").
    split; [reflexivity | split; [|reflexivity]].
    exists (txt "Processo"), (txt " "), "n"%char, ord_masc, (txt " ").
    repeat split; try reflexivity; [discriminate | now left].
  - vm_compute. reflexivity.
  - apply (proj1 (proj2 (extrair_numero_processo_resolution
                           [] (txt "00004983720188060127.pdf")) Hno));
      reflexivity.
  - apply (proj2 (proj2 (extrair_numero_processo_resolution
                           [] (txt "0000498372018806012.pdf")) Hno)).
    left. vm_compute. discriminate.
Defined.

(** ** Literal words and their spellings *)

Lemma lit_eq_app (ic : bool) (w1 w2 x1 x2 : str) :
  lit_eq ic w1 x1 = true -> lit_eq ic w2 x2 = true ->
  lit_eq ic (w1 ++ w2) (x1 ++ x2) = true.
Proof.
  revert x1. induction w1 as [|a w1 IH]; intros [|b x1]; simpl; try discriminate.
  - auto.
  - intros H1 H2. apply andb_true_iff in H1. destruct H1 as [-> H1]. now apply IH.
Qed.

Lemma lit_eq_app_inv (ic : bool) (w1 w2 x : str) :
  lit_eq ic (w1 ++ w2) x = true ->
  exists x1 x2, x = x1 ++ x2 /\ lit_eq ic w1 x1 = true /\ lit_eq ic w2 x2 = true.
Proof.
  revert x. induction w1 as [|a w1 IH]; intros x; simpl.
  - intros H. now exists [], x.
  - destruct x as [|b x]; [discriminate|].
    intros H. apply andb_true_iff in H. destruct H as [Hb H].
    destruct (IH _ H) as (x1 & x2 & -> & H1 & H2).
    exists (b :: x1), x2. simpl. now rewrite Hb, H1.
Qed.

Lemma lit_eq_length (ic : bool) (w x : str) :
  lit_eq ic w x = true -> length x = length w.
Proof.
  revert x. induction w as [|a w IH]; intros [|b x]; simpl; try discriminate.
  - reflexivity.
  - intros H. apply andb_true_iff in H. destruct H as [_ H]. now rewrite (IH _ H).
Qed.

Lemma spelled_iff (sps : list str) (nm : str) :
  spelled sps nm = true <-> exists sp, In sp sps /\ lit_eq true sp nm = true.
Proof. unfold spelled. apply existsb_exists. Qed.

Lemma matches_words (r : regex) :
  forall (sps : list str) (c c' : cursor),
    words r = Some sps ->
    (matches true r c c' <-> exists nm, spelled sps nm = true /\ span nm c c').
Proof.
  induction r as [|k|k|k|n k|r1 IH1 r2 IH2|r1 IH1 r2 IH2|r1 IH1| | |];
    intros sps c c'; cbn [words]; try discriminate.
  - intros H. injection H as <-. cbn [matches]. split.
    + intros ->. exists []. split; [reflexivity | now apply span_nil].
    + intros (nm & S & Sp). apply spelled_iff in S.
      destruct S as (sp & [<-|[]] & L). destruct nm; [|discriminate].
      now apply span_nil.
  - destruct k as [a|l| |]; try discriminate; intros H; injection H as <-;
      cbn [matches].
    + split.
      * intros (b & R). apply reads_span in R. destruct R as [S A].
        exists [b]. split; [|exact S]. unfold spelled. cbn [existsb lit_eq].
        cbn [forallb accepts] in A. now rewrite orb_false_r.
      * intros (nm & S & Sp). apply spelled_iff in S.
        destruct S as (sp & [<-|[]] & L).
        destruct nm as [|b [|? ?]]; simpl in L; try discriminate;
          [|rewrite andb_false_r in L; discriminate].
        exists b. apply reads_span. split; [exact Sp|]. exact L.
    + split.
      * intros (b & R). apply reads_span in R. destruct R as [S A].
        exists [b]. split; [|exact S]. apply spelled_iff.
        cbn [forallb accepts] in A. rewrite andb_true_r in A.
        apply existsb_exists in A. destruct A as (x & Hx & E).
        exists [x]. split; [exact (in_map (fun a => [a]) l x Hx)|].
        cbn [lit_eq]. now rewrite E.
      * intros (nm & S & Sp). apply spelled_iff in S.
        destruct S as (sp & Hin & L). apply in_map_iff in Hin.
        destruct Hin as (x & <- & Hx).
        destruct nm as [|b [|? ?]]; simpl in L; try discriminate;
          [|rewrite andb_false_r in L; discriminate].
        exists b. apply reads_span. split; [exact Sp|].
        cbn [forallb accepts]. rewrite andb_true_r. apply existsb_exists.
        exists x. split; [exact Hx|]. now rewrite andb_true_r in L.
  - destruct (words r1) as [l1|] eqn:W1; [|discriminate].
    destruct (words r2) as [l2|] eqn:W2; [|discriminate].
    intros H. injection H as <-. cbn [matches]. split.
    + intros (c1 & M1 & M2).
      apply (IH1 l1 c c1 eq_refl) in M1. destruct M1 as (n1 & S1 & Sp1).
      apply (IH2 l2 c1 c' eq_refl) in M2. destruct M2 as (n2 & S2 & Sp2).
      exists (n1 ++ n2). split; [|now apply span_trans with c1].
      apply spelled_iff in S1, S2. destruct S1 as (s1 & I1 & L1).
      destruct S2 as (s2 & I2 & L2). apply spelled_iff.
      exists (s1 ++ s2). split; [|now apply lit_eq_app].
      apply in_flat_map. exists s1. split; [exact I1|].
      exact (in_map (fun w2 => s1 ++ w2) l2 s2 I2).
    + intros (nm & S & Sp). apply spelled_iff in S. destruct S as (sp & I & L).
      apply in_flat_map in I. destruct I as (s1 & I1 & I).
      apply in_map_iff in I. destruct I as (s2 & <- & I2).
      apply lit_eq_app_inv in L. destruct L as (n1 & n2 & -> & L1 & L2).
      apply span_split in Sp. destruct Sp as (c1 & Sp1 & Sp2).
      exists c1. split.
      * apply (IH1 l1 c c1 eq_refl). exists n1. split; [|exact Sp1].
        apply spelled_iff. now exists s1.
      * apply (IH2 l2 c1 c' eq_refl). exists n2. split; [|exact Sp2].
        apply spelled_iff. now exists s2.
Qed.

(** ** Substitution of a pattern anchored at the start *)

Lemma match_at_bol_inside (ic : bool) (r : regex) (a : ascii) (s : str) :
  match_at ic (Bol ;; r) (Cur (Some a) s None) = None.
Proof. reflexivity. Qed.

Lemma sub_from_after_start (ic : bool) (r : regex) (repl : str) (s : str) :
  forall (k : nat) (a : ascii),
    sub_from ic (Bol ;; r) repl k (Some a) s = skipn k s.
Proof.
  induction s as [|b t IH]; intros k a.
  - destruct k; reflexivity.
  - destruct k as [|k]; cbn [sub_from].
    + rewrite match_at_bol_inside, IH. reflexivity.
    + rewrite IH. reflexivity.
Qed.

(** With a pattern that starts with [^], [re.sub] replaces the match at the
    start of the string, if there is one, and nothing else. *)
Lemma re_sub_anchored (ic : bool) (r : regex) (repl s : str) :
  re_sub ic (Bol ;; r) repl s =
  match re_match ic (Bol ;; r) s with
  | Some c' => repl ++ rest c'
  | None => s
  end.
Proof.
  unfold re_sub, re_match.
  destruct s as [|a t]; cbn [sub_from];
    destruct (match_at ic (Bol ;; r) _) as [c'|] eqn:M.
  - apply match_at_some, matches_moves in M. destruct M as [w [E _]].
    simpl in E. symmetry in E. apply app_eq_nil in E. destruct E as [_ <-].
    now destruct (length _).
  - reflexivity.
  - pose proof M as M'. apply match_at_some, matches_moves in M'.
    destruct M' as [w Hw]. rewrite (consumed_moves _ _ _ Hw).
    destruct Hw as [E _]. simpl in E. f_equal.
    destruct w as [|b w]; simpl in E.
    + simpl. rewrite sub_from_after_start. simpl. exact E.
    + injection E as <- E. simpl. rewrite sub_from_after_start, E.
      rewrite skipn_app, skipn_all, Nat.sub_diag. reflexivity.
  - now rewrite sub_from_after_start.
Qed.

(** ** Numbered section headings *)

Lemma spellings_words (sec : section_name) :
  words (section_re sec) = Some (spellings sec).
Proof. destruct sec; reflexivity. Qed.

Lemma after_snoc (p : option ascii) (x : str) (b : ascii) :
  after p (x ++ [b]) = Some b.
Proof. now rewrite after_app. Qed.

Lemma big_o_word (b : ascii) : char_eq true "O" b = true -> isword b = true.
Proof. all_chars b; vm_compute; congruence. Qed.

(** A section name ends in a word character. *)
Lemma spelled_ends_word (sec : section_name) (nm : str) (p : option ascii) :
  spelled (spellings sec) nm = true ->
  exists b, after p nm = Some b /\ isword b = true.
Proof.
  intros H. apply spelled_iff in H. destruct H as (sp & I & L).
  assert (E : exists sp', sp = sp' ++ [ "O"%char ]).
  { destruct sec; simpl in I;
      repeat (destruct I as [<-|I];
              [match goal with
               | |- exists _, ?x = _ => exists (removelast x); reflexivity
               end|]);
      destruct I. }
  destruct E as [sp' ->]. apply lit_eq_app_inv in L.
  destruct L as (x1 & x2 & -> & _ & L2).
  destruct x2 as [|b [|? ?]]; simpl in L2; try discriminate;
    [|rewrite andb_false_r in L2; discriminate].
  rewrite andb_true_r in L2. exists b. split; [apply after_snoc|].
  now apply big_o_word.
Qed.

Lemma spelled_initial (sec : section_name) (nm : str) :
  spelled (spellings sec) nm = true ->
  length nm = name_length sec
  /\ exists b t, nm = b :: t /\ char_eq true (initial sec) b = true.
Proof.
  intros H. apply spelled_iff in H. destruct H as (sp & I & L). split.
  - rewrite (lit_eq_length _ _ _ L).
    destruct sec; simpl in I;
      repeat (destruct I as [<-|I]; [reflexivity|]); destruct I.
  - assert (E : exists t, sp = initial sec :: t).
    { destruct sec; simpl in I;
        repeat (destruct I as [<-|I]; [eexists; reflexivity|]); destruct I. }
    destruct E as [t ->]. destruct nm as [|b nm]; [discriminate|].
    simpl in L. apply andb_true_iff in L. destruct L as [Lb _].
    now exists b, nm.
Qed.

Lemma initial_solid (sec : section_name) (b : ascii) :
  char_eq true (initial sec) b = true -> isspace b = false.
Proof.
  intros H. destruct (isspace b) eqn:E; [|reflexivity].
  rewrite (char_eq_not_space (initial sec) b) in H; [discriminate| |exact E].
  now destruct sec.
Qed.

Lemma initial_inj (s1 s2 : section_name) (b : ascii) :
  char_eq true (initial s1) b = true -> char_eq true (initial s2) b = true ->
  s1 = s2.
Proof.
  unfold char_eq. intros H1 H2. apply Ascii.eqb_eq in H1, H2.
  rewrite H1 in H2. destruct s1, s2; try reflexivity; vm_compute in H2;
    discriminate H2.
Qed.

(** The longest run of characters of a class at the start of a string is
    determined. *)
Lemma run_prefix_unique (f : ascii -> bool) (x1 x2 y1 y2 : str) :
  forallb f x1 = true -> forallb f x2 = true ->
  match y1 with a :: _ => f a = false | [] => True end ->
  match y2 with a :: _ => f a = false | [] => True end ->
  x1 ++ y1 = x2 ++ y2 -> x1 = x2 /\ y1 = y2.
Proof.
  revert x2. induction x1 as [|a x1 IH]; intros [|b x2]; simpl;
    intros F1 F2 H1 H2 E.
  - auto.
  - subst y1. apply andb_true_iff in F2. destruct F2 as [Fb _]. congruence.
  - subst y2. apply andb_true_iff in F1. destruct F1 as [Fa _]. congruence.
  - injection E as <- E. apply andb_true_iff in F1, F2.
    destruct F1 as [_ F1], F2 as [_ F2].
    destruct (IH x2 F1 F2 H1 H2 E) as [-> ->]. auto.
Qed.

Lemma app_eq_same_length (a b c d : str) :
  length a = length b -> a ++ c = b ++ d -> a = b /\ c = d.
Proof.
  revert b. induction a as [|x a IH]; intros [|y b]; simpl; try discriminate.
  - auto.
  - intros L E. injection L as L. injection E as <- E.
    destruct (IH b L E) as [-> ->]. auto.
Qed.

(** A paragraph opens with at most one heading, with one trailing text. *)
Lemma heading_of_unique (s1 s2 : section_name) (p t1 t2 : str) :
  heading_of s1 p t1 -> heading_of s2 p t2 -> s1 = s2 /\ t1 = t2.
Proof.
  intros (ds1 & ws1 & nm1 & E1 & _ & D1 & W1 & N1 & _)
         (ds2 & ws2 & nm2 & E2 & _ & D2 & W2 & N2 & _).
  rewrite E1 in E2.
  apply (run_prefix_unique isdecimal) in E2; try assumption; try reflexivity.
  destruct E2 as [_ E2]. simpl in E2. injection E2 as E2.
  destruct (spelled_initial _ _ N1) as [L1 (b1 & u1 & -> & B1)].
  destruct (spelled_initial _ _ N2) as [L2 (b2 & u2 & -> & B2)].
  apply (run_prefix_unique isspace) in E2; try assumption;
    try (simpl; eapply initial_solid; eassumption).
  destruct E2 as [_ E2]. pose proof E2 as E2'. simpl in E2'. injection E2' as <- _.
  pose proof (initial_inj _ _ _ B1 B2) as <-. split; [reflexivity|].
  apply app_eq_same_length in E2; [tauto | congruence].
Qed.

Lemma heading_matches_shape (sec : section_name) (p : str) (c' : cursor) :
  matches true (heading (section_re sec)) (Cur None p None) c' ->
  heading_of sec p (rest c').
Proof.
  cbn [matches heading].
  intros (c1 & [_ ->] & c2 & (ds & Nd & Rd) & c3 & (a & Ra) & c4 & (ws & Rw)
          & c5 & Mn & [B ->]).
  apply (matches_words _ _ _ _ (spellings_words sec)) in Mn.
  destruct Mn as (nm & Sn & Spn).
  apply reads_span in Rd, Ra, Rw.
  destruct Rd as [Sd Ad], Ra as [Sa Aa], Rw as [Sw Aw].
  sep_char Aa.
  exists ds, ws, nm. repeat split; auto.
  - assert (S : span (ds ++ txt "." ++ ws ++ nm) (Cur None p None) c5).
    { repeat (eapply span_trans; [eassumption|]). exact Spn. }
    destruct S as [[E _] _]. cbn [rest] in E. rewrite E. now rewrite <- !app_assoc.
  - destruct (spelled_ends_word sec nm (prev c4) Sn) as (b & Eb & Wb).
    unfold at_boundary, word_before in B.
    destruct Spn as [[_ P] _]. rewrite P, Eb, Wb in B.
    unfold word_after in B. unfold starts_word.
    destruct (rest c5); [reflexivity|]. simpl in B.
    now apply negb_true_iff in B.
Qed.

Lemma heading_of_matches (sec : section_name) (p t : str) :
  heading_of sec p t ->
  exists c', matches true (heading (section_re sec)) (Cur None p None) c'
             /\ rest c' = t.
Proof.
  intros (ds & ws & nm & -> & Nd & Ad & Aw & Sn & Bt).
  exists (Cur (after (after (after (after None ds) (txt ".")) ws) nm) t None).
  split; [|reflexivity]. cbn [matches heading].
  eexists. split; [split; reflexivity|].
  eexists. split.
  { exists ds. split; [exact Nd | now apply reads_intro]. }
  eexists. split.
  { exists "."%char. now apply (reads_intro true (Lit ".") (txt ".")). }
  eexists. split.
  { exists ws. now apply reads_intro. }
  eexists. split.
  { apply (matches_words _ _ _ _ (spellings_words sec)).
    exists nm. split; [exact Sn | apply span_intro]. }
  split; [|reflexivity].
  destruct (spelled_ends_word sec nm (after (after (after None ds) (txt ".")) ws) Sn)
    as (b & Eb & Wb).
  unfold at_boundary, word_before, word_after. cbn [prev rest].
  rewrite Eb, Wb. unfold starts_word in Bt. destruct t; [reflexivity|].
  now rewrite Bt.
Qed.

Lemma at_boundary_group (c : cursor) (g : option str) :
  at_boundary (Cur (prev c) (rest c) g) = at_boundary c.
Proof. reflexivity. Qed.

(** [sec_pattern] matches a line exactly when the line opens with a
    numbered heading of one of the three sections. *)
Lemma sec_pattern_heading (line : str) :
  found (re_match true sec_pattern line) = true
  <-> exists sec trailing, heading_of sec line trailing.
Proof.
  split.
  - unfold re_match.
    destruct (match_at true sec_pattern (Cur None line None)) as [c'|] eqn:M;
      [|discriminate].
    intros _. apply match_at_some in M. cbn [matches sec_pattern] in M.
    destruct M as (c1 & [P ->] & c2 & Hd & c3 & Ha & c4 & Hw & c5
                   & (c6 & Hn & ->) & [B ->]).
    rewrite at_boundary_group in B.
    assert (Hsec : exists sec, matches true (section_re sec) c4 c6).
    { destruct Hn as [Hn|[Hn|Hn]];
        [exists RELATORIO | exists FUNDAMENTACAO | exists DISPOSITIVO]; exact Hn. }
    destruct Hsec as [sec Hsec]. exists sec, (rest c6).
    apply heading_matches_shape. cbn [matches heading].
    exists (Cur None line None). split; [split; reflexivity|].
    exists c2. split; [exact Hd|]. exists c3. split; [exact Ha|].
    exists c4. split; [exact Hw|]. exists c6. split; [exact Hsec|].
    split; [exact B | reflexivity].
  - intros (sec & trailing & H).
    destruct (heading_of_matches _ _ _ H) as (c' & M & _).
    cbn [matches heading] in M.
    destruct M as (c1 & [P ->] & c2 & Hd & c3 & Ha & c4 & Hw & c5 & Hn & [B ->]).
    assert (M : matches true sec_pattern (Cur None line None)
                  (Cur (prev c5) (rest c5) (Some (consumed c4 c5)))).
    { cbn [matches sec_pattern].
      exists (Cur None line None). split; [split; reflexivity|].
      exists c2. split; [exact Hd|]. exists c3. split; [exact Ha|].
      exists c4. split; [exact Hw|].
      exists (Cur (prev c5) (rest c5) (Some (consumed c4 c5))). split.
      - exists c5. split; [|reflexivity].
        destruct sec; [left | right; left | right; right]; exact Hn.
      - split; [|reflexivity]. now rewrite at_boundary_group. }
    apply matches_match_at in M. unfold re_match.
    now destruct (match_at true sec_pattern (Cur None line None)).
Qed.

(** One of the three substitutions of [normalize_paragraphs]. *)
Lemma re_sub_heading (sec : section_name) (repl p : str) :
  (forall t, heading_of sec p t ->
             re_sub true (heading (section_re sec)) repl p = repl ++ t)
  /\ ((forall t, ~ heading_of sec p t) ->
      re_sub true (heading (section_re sec)) repl p = p).
Proof.
  assert (E : re_sub true (heading (section_re sec)) repl p =
              match match_at true (heading (section_re sec)) (Cur None p None) with
              | Some c' => repl ++ rest c'
              | None => p
              end) by apply re_sub_anchored.
  rewrite E. clear E.
  destruct (match_at true (heading (section_re sec)) (Cur None p None))
    as [c'|] eqn:M.
  - apply match_at_some, heading_matches_shape in M. split.
    + intros t H. destruct (heading_of_unique _ _ _ _ _ M H) as [_ ->]. reflexivity.
    + intros H. exfalso. exact (H _ M).
  - split; [|reflexivity].
    intros t H. destruct (heading_of_matches _ _ _ H) as (c' & Hc & _).
    apply matches_match_at in Hc. contradiction.
Qed.

Lemma no_heading_after_mark (sec : section_name) (s t : str) :
  ~ heading_of sec ("#"%char :: s) t.
Proof.
  intros (ds & ws & nm & E & Nd & Ad & _).
  destruct ds as [|d ds]; [contradiction|].
  simpl in E. injection E as <- _. discriminate Ad.
Qed.

Lemma normalize_one_sections (p : str) :
  normalize_one p
  = sub_section DISPOSITIVO (sub_section FUNDAMENTACAO (sub_section RELATORIO p)).
Proof. reflexivity. Qed.

Lemma sub_section_heading (sec : section_name) (p t : str) :
  heading_of sec p t -> sub_section sec p = txt "### " ++ canonical sec ++ t.
Proof.
  intros H. unfold sub_section.
  rewrite (proj1 (re_sub_heading sec _ p) t H). now rewrite <- app_assoc.
Qed.

Lemma sub_section_other (sec : section_name) (p : str) :
  (forall t, ~ heading_of sec p t) -> sub_section sec p = p.
Proof. intros H. unfold sub_section. now apply re_sub_heading. Qed.

Lemma sub_section_marked (sec sec' : section_name) (t : str) :
  sub_section sec (txt "### " ++ canonical sec' ++ t)
  = txt "### " ++ canonical sec' ++ t.
Proof. apply sub_section_other. intros u. apply no_heading_after_mark. Qed.

(** C8. [normalize_paragraphs] keeps the number and the order of the
    paragraphs.  A paragraph that opens with a numbered heading of a section
    has that heading, and nothing else, replaced by [### ] and the unaccented
    label, the text after the heading being kept; the heading and the
    section are determined, so one substitution applies.  A paragraph that
    opens with no such heading is returned as it is. *)
Theorem normalize_paragraphs_headings :
  (forall merged : list str,
      length (normalize_paragraphs merged) = length merged
      /\ forall i, nth_error (normalize_paragraphs merged) i
                   = option_map normalize_one (nth_error merged i))
  /\ (forall (p : str) (sec : section_name) (trailing : str),
        heading_of sec p trailing ->
        normalize_one p = txt "### " ++ canonical sec ++ trailing
        /\ forall sec' trailing',
             heading_of sec' p trailing' -> sec' = sec /\ trailing' = trailing)
  /\ (forall p : str,
        (forall sec trailing, ~ heading_of sec p trailing) ->
        normalize_one p = p).
Proof.
  split; [|split].
  - intros merged. unfold normalize_paragraphs. split.
    + apply length_map.
    + intros i. apply nth_error_map.
  - intros p sec trailing H. split.
    + assert (Hother : forall sec', sec' <> sec -> sub_section sec' p = p).
      { intros sec' Hne. apply sub_section_other. intros t Ht.
        apply Hne. exact (proj1 (heading_of_unique _ _ _ _ _ Ht H)). }
      rewrite normalize_one_sections.
      destruct sec.
      * rewrite (sub_section_heading _ _ _ H). now rewrite !sub_section_marked.
      * rewrite (Hother RELATORIO) by discriminate.
        rewrite (sub_section_heading _ _ _ H). now rewrite sub_section_marked.
      * rewrite (Hother RELATORIO), (Hother FUNDAMENTACAO) by discriminate.
        exact (sub_section_heading _ _ _ H).
    + intros sec' trailing' H'. exact (heading_of_unique _ _ _ _ _ H' H).
  - intros p H. rewrite normalize_one_sections.
    rewrite (sub_section_other RELATORIO) by apply H.
    rewrite (sub_section_other FUNDAMENTACAO) by apply H.
    apply sub_section_other. apply H.
Qed.

(** An accented lower-case heading followed by text, and a paragraph whose
    first word only begins like a section name. *)
Lemma normalize_paragraphs_headings_witness :
  normalize_one (txt "12.  relat" ++ [o_acute] ++ txt "rio: dos fatos")
  = txt "### RELATORIO: dos fatos"
  /\ normalize_one (txt "Vistos etc.") = txt "Vistos etc.".
Proof.
  split.
  - apply (proj1 (proj1 (proj2 normalize_paragraphs_headings)
                    (txt "12.  relat" ++ [o_acute] ++ txt "rio: dos fatos")
                    RELATORIO (txt ": dos fatos")
                    (ex_intro _ (txt "12")
                       (ex_intro _ (txt "  ")
                          (ex_intro _ (txt "relat" ++ [o_acute] ++ txt "rio")
                             (conj eq_refl
                                (conj (fun E => @nil_cons _ _ _ (eq_sym E))
                                   (conj eq_refl
                                      (conj eq_refl
                                         (conj eq_refl eq_refl)))))))))).
  - apply (proj2 (proj2 normalize_paragraphs_headings) (txt "Vistos etc.")).
    intros sec trailing (ds & ws & nm & E & Nd & Ad & _).
    destruct ds as [|d ds]; [contradiction|].
    simpl in E. injection E as <- _. discriminate Ad.
Defined.

(** ** Hard breaks of the reflow *)

(** C3. A non-blank line that, once trimmed, opens with a numbered heading
    of RELATORIO, FUNDAMENTACAO or DISPOSITIVO (digits, a dot, optional white
    space, the name in an accented or unaccented spelling, case ignored) or
    is entirely upper-case, flushes the buffer, whatever the buffer ends
    with, and becomes a paragraph of its own: the output is the paragraphs
    of the lines before it, the trimmed line, and the paragraphs of the
    lines after it. *)
Theorem merge_lines_hard_break :
  forall (pre post : list str) (raw_line : str),
    strip raw_line <> [] ->
    (exists sec trailing, heading_of sec (strip raw_line) trailing)
    \/ isupper (strip raw_line) = true ->
    merge_loop (pre ++ [raw_line]) = (merge_lines pre ++ [strip raw_line], [])
    /\ merge_lines (pre ++ raw_line :: post)
       = merge_lines pre ++ [strip raw_line] ++ merge_lines post.
Proof.
  intros pre post raw_line Hl Hh.
  assert (Hb : hard_break (strip raw_line) = true).
  { unfold hard_break. apply orb_true_iff.
    destruct Hh as [Hh|Hh]; [left; now apply sec_pattern_heading | now right]. }
  assert (Hstep : merge_step (merge_loop pre) raw_line
                  = (merge_lines pre ++ [strip raw_line], [])).
  { unfold merge_lines. destruct (merge_loop pre) as [m b]. unfold merge_step.
    apply is_empty_false in Hl. now rewrite Hl, Hb. }
  split.
  - now rewrite merge_loop_snoc.
  - pose proof (merge_lines_cons_state post (merge_lines pre ++ [strip raw_line])) as H.
    rewrite (merge_lines_eq (pre ++ raw_line :: post)). unfold merge_loop.
    rewrite fold_left_app. cbn [fold_left].
    change (fold_left merge_step pre ([], [])) with (merge_loop pre).
    rewrite Hstep, H. now rewrite <- app_assoc.
Qed.

(** An all-caps line and a numbered heading between two wrapped lines, the
    first of which ends without punctuation. *)
Lemma merge_lines_hard_break_witness :
  merge_lines ([txt "the claim"] ++ txt " DECIDE " :: [txt "is valid"])
  = merge_lines [txt "the claim"] ++ [txt "DECIDE"] ++ merge_lines [txt "is valid"]
  /\ merge_lines ([txt "the claim"] ++ txt "2. Dispositivo" :: [txt "is valid"])
  = [txt "the claim"; txt "2. Dispositivo"; txt "is valid"].
Proof.
  split.
  - apply (merge_lines_hard_break [txt "the claim"] [txt "is valid"] (txt " DECIDE "));
      [vm_compute; discriminate | right; vm_compute; reflexivity].
  - apply (merge_lines_hard_break [txt "the claim"] [txt "is valid"]
             (txt "2. Dispositivo"));
      [vm_compute; discriminate|].
    left. exists DISPOSITIVO, []. exists (txt "2"), (txt " "), (txt "Dispositivo").
    repeat split; try reflexivity. discriminate.
Defined.

Lemma existsb_orb_false (f g : ascii -> bool) (s : str) :
  existsb (fun c => f c || g c) s = false ->
  existsb f s = false /\ existsb g s = false.
Proof.
  induction s as [|a s IH]; simpl; [auto|].
  rewrite !orb_false_iff. intros [[Hf Hg] H]. destruct (IH H). auto.
Qed.

Lemma initial_cased (sec : section_name) (b : ascii) :
  char_eq true (initial sec) b = true -> char_iscased b = true.
Proof. destruct sec; all_chars b; vm_compute; congruence. Qed.

(** A numbered section heading holds a cased character. *)
Lemma heading_has_cased (sec : section_name) (p t : str) :
  heading_of sec p t -> existsb char_iscased p = true.
Proof.
  intros (ds & ws & nm & -> & _ & _ & _ & Sn & _).
  destruct (spelled_initial _ _ Sn) as [_ (b & u & -> & Hb)].
  rewrite !existsb_app. cbn [existsb]. rewrite (initial_cased _ _ Hb).
  now rewrite !orb_true_r.
Qed.

(** C10. A line without cased characters is not upper-case for
    [str.isupper] and matches no section heading, so it is an ordinary body
    line: it seeds an empty buffer, and otherwise follows the punctuation
    rule; ["123."] after ["abc"] is merged into it. *)
Theorem isupper_needs_cased_character :
  (forall line : str,
      existsb char_iscased line = false ->
      isupper line = false /\ found (re_match true sec_pattern line) = false)
  /\ (forall (pre : list str) (raw_line : str) (merged : list str) (buffer : str),
        merge_loop pre = (merged, buffer) ->
        strip raw_line <> [] ->
        existsb char_iscased (strip raw_line) = false ->
        merge_loop (pre ++ [raw_line]) =
          if is_empty buffer then (merged, strip raw_line)
          else if ends_sentence buffer
               then (merged ++ [buffer], strip raw_line)
               else (merged, buffer ++ txt " " ++ strip raw_line))
  /\ merge_lines [txt "abc"; txt "123."] = [txt "abc 123."].
Proof.
  assert (Hup : forall line : str,
             existsb char_iscased line = false ->
             isupper line = false
             /\ found (re_match true sec_pattern line) = false).
  { intros line H. split.
    - apply existsb_orb_false in H. destruct H as [Hu _].
      unfold isupper. rewrite Hu. apply andb_false_r.
    - destruct (found (re_match true sec_pattern line)) eqn:E; [|reflexivity].
      apply sec_pattern_heading in E. destruct E as (sec & t & E).
      apply heading_has_cased in E. congruence. }
  split; [exact Hup | split].
  - intros pre raw_line merged buffer Hloop Hl Hc.
    destruct (Hup _ Hc) as [Hu Hs].
    rewrite merge_loop_snoc, Hloop. unfold merge_step, hard_break.
    apply is_empty_false in Hl. rewrite Hl, Hs, Hu. cbn [orb].
    destruct (is_empty buffer) eqn:Eb; [reflexivity|].
    pose proof (merge_loop_buffer_ok pre) as Hok. rewrite Hloop in Hok.
    cbn [snd] in Hok. destruct Hok as [Hok|Hok];
      [subst buffer; discriminate|].
    now rewrite (end_of_sentence_trimmed _ Hok), (strip_of_trimmed _ Hok).
  - vm_compute. reflexivity.
Qed.

(** A line of digits and punctuation is merged after an unfinished line. *)
Lemma isupper_needs_cased_character_witness :
  isupper (txt "123.") = false
  /\ merge_loop ([txt "abc"] ++ [txt "123."]) = ([], txt "abc 123.").
Proof.
  split.
  - apply (proj1 isupper_needs_cased_character (txt "123.")). reflexivity.
  - apply (proj1 (proj2 isupper_needs_cased_character)
             [txt "abc"] (txt "123.") [] (txt "abc"));
      [reflexivity | vm_compute; discriminate | reflexivity].
Defined.

(** ** Header and footer patterns *)

Lemma search_from_bol_inside (ic : bool) (r : regex) (s : str) :
  forall a : ascii, search_from ic (Bol ;; r) (Some a) s = None.
Proof. induction s as [|b t IH]; intros a; cbn [search_from]; [reflexivity | apply IH]. Qed.

(** A pattern that starts with [^] is found at the start or nowhere. *)
Lemma search_anchored (ic : bool) (r : regex) (s : str) :
  re_search ic (Bol ;; r) s = re_match ic (Bol ;; r) s.
Proof.
  unfold re_search, re_match. destruct s as [|a t]; cbn [search_from].
  - now destruct (match_at ic (Bol ;; r) (Cur None [] None)).
  - destruct (match_at ic (Bol ;; r) (Cur None (a :: t) None)); [reflexivity|].
    apply search_from_bol_inside.
Qed.

Lemma found_anchored (r : regex) (s : str) :
  found (re_search true (Bol ;; r) s) = true ->
  exists c', matches true r (Cur None s None) c'.
Proof.
  rewrite search_anchored. unfold re_match.
  destruct (match_at true (Bol ;; r) (Cur None s None)) as [c'|] eqn:M;
    [|discriminate].
  intros _. apply match_at_some in M. cbn [matches] in M.
  destruct M as (c1 & [_ ->] & M). now exists c'.
Qed.

Lemma char_eq_tolower (x b : ascii) : char_eq true x b = true -> tolower b = tolower x.
Proof. unfold char_eq. apply Ascii.eqb_eq. Qed.

Lemma lits_head2 (x y : ascii) (w : str) (c c' : cursor) :
  matches true (lits (x :: y :: w)) c c' ->
  head2 (rest c) = [tolower x; tolower y].
Proof.
  intros H. apply matches_lits in H. destruct H as (nm & L & [[E _] _]).
  destruct nm as [|b1 [|b2 nm]]; simpl in L; try discriminate;
    [rewrite andb_false_r in L; discriminate|].
  apply andb_true_iff in L. destruct L as [L1 L].
  apply andb_true_iff in L. destruct L as [L2 _].
  rewrite E. unfold head2. simpl.
  now rewrite (char_eq_tolower _ _ L1), (char_eq_tolower _ _ L2).
Qed.

Lemma lits_seq_head2 (x y : ascii) (w : str) (r : regex) (c c' : cursor) :
  matches true (lits (x :: y :: w) ;; r) c c' ->
  head2 (rest c) = [tolower x; tolower y].
Proof. cbn [matches]. intros (c1 & H & _). exact (lits_head2 _ _ _ _ _ H). Qed.

(** After optional white space, a literal word: the string starts with the
    word or with white space. *)
Lemma spaces_lits_head2 (x y : ascii) (w : str) (c c' : cursor) :
  matches true (Star Space ;; lits (x :: y :: w)) c c' ->
  head2 (rest c) = [tolower x; tolower y] \/ starts_solid (rest c) = false.
Proof.
  cbn [matches]. intros (c1 & (ws & R) & H).
  apply reads_span in R. destruct R as [[[E _] _] A].
  destruct ws as [|a ws].
  - left. rewrite E. exact (lits_head2 _ _ _ _ _ H).
  - right. rewrite E. simpl in A. apply andb_true_iff in A. destruct A as [A _].
    simpl. now rewrite A.
Qed.

Lemma footer_opening (f : regex) (s : str) :
  In f FOOTER_PATTERNS -> found (re_search true f s) = true ->
  In (head2 s) footer_openings.
Proof.
  intros I H. unfold FOOTER_PATTERNS in I. cbn [In] in I.
  destruct I as [<-|[<-|[<-|[<-|[]]]]];
    apply found_anchored in H; destruct H as [c' H].
  - apply lits_head2 in H. cbn [rest] in H. rewrite H. simpl. auto.
  - apply lits_head2 in H. cbn [rest] in H. rewrite H. simpl. auto.
  - apply lits_head2 in H. cbn [rest] in H. rewrite H. simpl. auto.
  - apply lits_seq_head2 in H. cbn [rest] in H. rewrite H. simpl. auto 6.
Qed.

Lemma header_opening (h : regex) (s : str) :
  In h HEADER_PATTERNS -> found (re_search true h s) = true ->
  h = CEP_PATTERN \/ In (head2 s) header_openings \/ starts_solid s = false.
Proof.
  intros I H. unfold HEADER_PATTERNS in I. cbn [In] in I.
  destruct I as [<-|[<-|[<-|[<-|[<-|[<-|[<-|[]]]]]]]]; [| | | |now left| |];
    right; apply found_anchored in H; destruct H as [c' H].
  - left. apply lits_seq_head2 in H. cbn [rest] in H. rewrite H. simpl. auto.
  - left. apply lits_head2 in H. cbn [rest] in H. rewrite H. simpl. auto.
  - left. apply lits_head2 in H. cbn [rest] in H. rewrite H. simpl. auto.
  - left. cbn [matches] in H.
    destruct H as (c1 & (b1 & R1) & c2 & (b2 & R2) & _).
    apply reads_span in R1, R2.
    destruct R1 as [[[E1 _] _] A1], R2 as [[[E2 _] _] A2].
    cbn [forallb accepts existsb] in A1, A2.
    rewrite andb_true_r in A1. rewrite andb_true_r, orb_false_r in A2.
    simpl in E1, E2. rewrite E1, E2. unfold head2. simpl.
    rewrite (char_eq_tolower _ _ A1).
    apply orb_true_iff in A2.
    destruct A2 as [A2|A2]; rewrite (char_eq_tolower _ _ A2); simpl; auto 6.
  - destruct (spaces_lits_head2 _ _ _ _ _ H) as [E|E]; [left | now right].
    cbn [rest] in E. rewrite E. simpl. auto 8.
  - destruct (spaces_lits_head2 _ _ _ _ _ H) as [E|E]; [left | now right].
    cbn [rest] in E. rewrite E. simpl. auto 8.
Qed.

Lemma footer_opening_solid (s : str) :
  In (head2 s) footer_openings -> starts_solid s = true.
Proof.
  destruct s as [|a t]; simpl.
  - intros [H|[H|[H|[H|[]]]]]; discriminate H.
  - intros H. destruct (isspace a) eqn:E; [|reflexivity]. exfalso.
    pose proof (tolower_uncased a (space_uncased a E)) as T.
    unfold head2 in H. simpl in H. rewrite T in H.
    destruct H as [H|[H|[H|[H|[]]]]]; injection H as <- _; discriminate E.
Qed.

Lemma openings_disjoint (x : str) :
  In x footer_openings -> In x header_openings -> False.
Proof.
  unfold footer_openings, header_openings. simpl.
  intros [<-|[<-|[<-|[<-|[]]]]] H;
    repeat (destruct H as [H|H]; [discriminate H|]); destruct H.
Qed.

Lemma any_search_some (regexes : list regex) (line : str) :
  any_search regexes line = true ->
  exists r, In r regexes /\ found (re_search true r line) = true.
Proof. unfold any_search. apply existsb_exists. Qed.

(** C9, as stated, fails: a page-number footer that also carries a postal
    code matches a footer pattern and a header pattern. *)
Lemma header_footer_counterexample :
  let line := txt "fls. 12 CEP: 60000-000" in
  any_search HEADER_PATTERNS line = true
  /\ any_search FOOTER_PATTERNS line = true
  /\ is_header_line line = true /\ is_footer_line line = true.
Proof. vm_compute. auto. Qed.

(** C9 (amended). The footer patterns are disjoint from the header patterns
    that are anchored at the start of the line: a header pattern and a
    footer pattern that match the same line are the postal-code pattern and
    a footer pattern, so the header test hides a footer only on a line that
    holds a postal code. *)
Theorem header_footer_overlap :
  forall line : str,
    (forall h f : regex,
        In h HEADER_PATTERNS -> In f FOOTER_PATTERNS ->
        found (re_search true h line) = true ->
        found (re_search true f line) = true ->
        h = CEP_PATTERN)
    /\ (is_header_line line = true -> is_footer_line line = true ->
        found (re_search true CEP_PATTERN (strip line)) = true).
Proof.
  assert (Hpat : forall (line : str) (h f : regex),
             In h HEADER_PATTERNS -> In f FOOTER_PATTERNS ->
             found (re_search true h line) = true ->
             found (re_search true f line) = true ->
             h = CEP_PATTERN).
  { intros line h f Ih If Hh Hf.
    pose proof (footer_opening f line If Hf) as Ff.
    destruct (header_opening h line Ih Hh) as [E|[Fh|Fh]]; [exact E| |].
    - exfalso. exact (openings_disjoint _ Ff Fh).
    - apply footer_opening_solid in Ff. congruence. }
  intros line. split; [apply Hpat|].
  unfold is_header_line, is_footer_line.
  destruct (is_empty (strip line)); [discriminate|].
  intros Hh Hf. apply any_search_some in Hh, Hf.
  destruct Hh as (h & Ih & Hh), Hf as (f & If & Hf).
  now rewrite <- (Hpat _ h f Ih If Hh Hf).
Qed.

(** A line that is both a header and a footer holds a postal code. *)
Lemma header_footer_overlap_witness :
  found (re_search true CEP_PATTERN (strip (txt "fls. 12 CEP: 60000-000"))) = true.
Proof.
  apply (proj2 (header_footer_overlap (txt "fls. 12 CEP: 60000-000")));
    vm_compute; reflexivity.
Defined.

(** ** The pipeline *)

Lemma fold_page_step (pages : list page_outcome) (texts : list str)
  (lines : list str) :
  fold_left page_step pages (texts, lines)
  = (texts ++ page_texts pages,
     lines ++ flat_map page_lines (page_texts pages)).
Proof.
  revert texts lines. induction pages as [|pg pages IH]; intros texts lines.
  - simpl. now rewrite !app_nil_r.
  - cbn [fold_left]. destruct pg as [msg|[s|]]; cbn [page_step fst snd].
    + apply IH.
    + rewrite IH.
      change (page_texts (ExtractReturns (Some s) :: pages))
        with ([s] ++ page_texts pages).
      rewrite flat_map_app. cbn [flat_map].
      now rewrite app_nil_r, <- !app_assoc.
    + rewrite IH.
      change (page_texts (ExtractReturns None :: pages))
        with ([[]] ++ page_texts pages).
      rewrite flat_map_app. cbn [flat_map].
      now rewrite app_nil_r, <- !app_assoc.
Qed.

Lemma read_pages_texts (pages : list page_outcome) :
  read_pages pages = (page_texts pages, flat_map page_lines (page_texts pages)).
Proof. unfold read_pages. now rewrite fold_page_step. Qed.

(** The result of a document that opens with pages and meets no later
    fault. *)
Lemma extrair_info_pdf_success (path : str) (pages : list page_outcome) :
  pages <> [] ->
  extrair_info_pdf (Document path (Opens pages) None)
  = Resultado (path_name path)
      (extrair_numero_processo (join [LF] (page_texts pages)) (path_name path))
      (clean_text (flat_map page_lines (page_texts pages)))
      true None.
Proof.
  intros H. unfold extrair_info_pdf, extrair_info_pdf_body.
  cbn [opening later_fault caminho_pdf]. destruct pages as [|pg pages]; [contradiction|].
  now rewrite read_pages_texts.
Qed.

Lemma extrair_info_pdf_fault (path : str) (pages : list page_outcome) (e : str) :
  pages <> [] ->
  extrair_info_pdf (Document path (Opens pages) (Some e))
  = Resultado (path_name path) None [] false
      (Some (txt "Erro ao processar PDF: " ++ e)).
Proof.
  intros H. unfold extrair_info_pdf, extrair_info_pdf_body.
  cbn [opening later_fault caminho_pdf]. destruct pages as [|pg pages]; [contradiction|].
  now rewrite read_pages_texts.
Qed.


(** C6. When the source opens with at least one page, pages whose
    extraction raises do not fail the document: the result is a success
    whose text is built from the pages that returned, and it is the result
    of the document without the failing page. *)
Theorem page_failure_is_skipped :
  forall (path : str) (pages : list page_outcome),
    pages <> [] ->
    (let r := extrair_info_pdf (Document path (Opens pages) None) in
     sucesso r = true /\ erro r = None
     /\ texto_completo_limpo r
        = clean_text (flat_map page_lines (page_texts pages)))
    /\ (forall before rest_pages msg,
          pages = before ++ ExtractRaises msg :: rest_pages ->
          before ++ rest_pages <> [] ->
          extrair_info_pdf (Document path (Opens pages) None)
          = extrair_info_pdf (Document path (Opens (before ++ rest_pages)) None)).
Proof.
  intros path pages H. split.
  - cbv zeta. rewrite extrair_info_pdf_success by exact H. repeat split.
  - intros before rest_pages msg -> H'.
    rewrite !extrair_info_pdf_success by assumption.
    assert (E : page_texts (before ++ ExtractRaises msg :: rest_pages)
                = page_texts (before ++ rest_pages)).
    { unfold page_texts. now rewrite !flat_map_app. }
    now rewrite E.
Qed.

(** Three pages, the second of which fails: the text is the text of the
    first and the third. *)
Lemma page_failure_is_skipped_witness :
  let pages := [ExtractReturns (Some (txt "The court finds"));
                ExtractRaises (txt "broken stream");
                ExtractReturns (Some (txt "that the claim is valid."))] in
  let r := extrair_info_pdf (Document (txt "a.pdf") (Opens pages) None) in
  sucesso r = true /\ erro r = None
  /\ texto_completo_limpo r
     = clean_text (flat_map page_lines (page_texts pages)).
Proof.
  intros pages.
  apply (proj1 (page_failure_is_skipped (txt "a.pdf") pages
                  (fun E => @nil_cons _ _ _ (eq_sym E)))).
Defined.

(** C7. The case number of a successful run is resolved on the raw texts of
    the pages joined by newlines, header and footer lines included; a label
    that stands on a header or footer line, which the cleaned text drops, is
    still found: when the raw text has one labelled case number, that
    number is the result. *)
Theorem case_number_from_raw_text :
  (forall (path : str) (pages : list page_outcome),
      pages <> [] ->
      numeroProcesso (extrair_info_pdf (Document path (Opens pages) None))
      = extrair_numero_processo (join [LF] (page_texts pages)) (path_name path))
  /\ (forall (path : str) (pages : list page_outcome) (pre tok : str),
        pages <> [] ->
        labelled_at (join [LF] (page_texts pages)) pre tok ->
        (forall pre0 tok0,
            labelled_at (join [LF] (page_texts pages)) pre0 tok0 -> tok0 = tok) ->
        numeroProcesso (extrair_info_pdf (Document path (Opens pages) None))
        = Some tok)
  /\ (let header := txt "Comarca de Caucaia - Processo n" ++ [ord_masc]
                    ++ txt ": 0000498-37.2018.8.06.0127" in
      let page := header ++ [LF] ++ txt "Vistos etc." in
      let r := extrair_info_pdf
                 (Document (txt "decisao.pdf") (Opens [ExtractReturns (Some page)])
                    None) in
      is_header_line header = true
      /\ texto_completo_limpo r = txt "Vistos etc."
      /\ numeroProcesso r = Some (txt "0000498-37.2018.8.06.0127")).
Proof.
  split; [|split].
  - intros path pages H. now rewrite extrair_info_pdf_success.
  - intros path pages pre tok H Hl Honly.
    rewrite extrair_info_pdf_success by exact H. cbn [numeroProcesso].
    unfold extrair_numero_processo.
    pose proof (search_padrao_numero (join [LF] (page_texts pages))) as S.
    destruct (re_search true padrao_numero (join [LF] (page_texts pages)))
      as [m|].
    + destruct S as (pre' & tok' & Hc & Hl' & _).
      now rewrite Hc, (Honly _ _ Hl').
    + exfalso. exact (S _ _ Hl).
  - vm_compute. auto.
Qed.

Lemma case_number_from_raw_text_witness :
  let pages := [ExtractReturns (Some (txt "fls. 3 Processo n#: 0000498-37.2018.8.06.0127"));
                ExtractReturns None] in
  numeroProcesso (extrair_info_pdf (Document (txt "a.pdf") (Opens pages) None))
  = extrair_numero_processo (join [LF] (page_texts pages)) (path_name (txt "a.pdf")).
Proof.
  intros pages.
  apply (proj1 case_number_from_raw_text (txt "a.pdf") pages).
  discriminate.
Defined.

(* ================================================================== *)
(** * Further properties *)

(** ** Header and footer lines *)

Lemma strip_idempotent (s : str) : strip (strip s) = strip s.
Proof.
  destruct (strip s) as [|a t] eqn:E; [reflexivity|].
  rewrite <- E. apply strip_of_trimmed. apply strip_trimmed.
  rewrite E. discriminate.
Qed.

Lemma firstn_exact (x y : str) : firstn (length x) (x ++ y) = x.
Proof.
  rewrite firstn_app, firstn_all, Nat.sub_diag. simpl. apply app_nil_r.
Qed.

Lemma found_anchored_iff (r : regex) (t : str) :
  found (re_search true (Bol ;; r) t) = true
  <-> exists c', matches true r (Cur None t None) c'.
Proof.
  split; [apply found_anchored|].
  intros [c' M]. rewrite search_anchored. unfold re_match.
  assert (M' : matches true (Bol ;; r) (Cur None t None) c').
  { cbn [matches]. exists (Cur None t None). split; [split; reflexivity | exact M]. }
  apply matches_match_at in M'.
  now destruct (match_at true (Bol ;; r) (Cur None t None)).
Qed.

(** A pattern of literals matches at a position exactly when the text there
    starts with one of its spellings. *)
Lemma matches_prefix_words (r : regex) (sps : list str) (p : option ascii)
  (t : str) (g : option str) :
  words r = Some sps ->
  (exists c', matches true r (Cur p t g) c')
  <-> existsb (fun sp => starts_ci sp t) sps = true.
Proof.
  intros W. rewrite existsb_exists. split.
  - intros [c' M]. apply (matches_words _ _ _ _ W) in M.
    destruct M as (nm & S & [[E _] _]). apply spelled_iff in S.
    destruct S as (sp & I & L). exists sp. split; [exact I|].
    unfold starts_ci. cbn [rest] in E. rewrite E.
    rewrite <- (lit_eq_length _ _ _ L), firstn_exact. exact L.
  - intros (sp & I & L). unfold starts_ci in L.
    exists (Cur (after p (firstn (length sp) t)) (skipn (length sp) t) g).
    apply (matches_words _ _ _ _ W). exists (firstn (length sp) t). split.
    + apply spelled_iff. now exists sp.
    + repeat split. cbn [rest]. symmetry. apply firstn_skipn.
Qed.

Lemma found_anchored_words (r : regex) (sps : list str) (t : str) :
  words r = Some sps ->
  found (re_search true (Bol ;; r) t) = existsb (fun sp => starts_ci sp t) sps.
Proof.
  intros W. apply Bool.eq_iff_eq_true.
  rewrite found_anchored_iff. now apply matches_prefix_words.
Qed.

(** On a trimmed line the optional white space of [^\s*Tel] is empty. *)
Lemma found_anchored_spaces_words (r : regex) (sps : list str) (t : str) :
  words r = Some sps -> starts_solid t = true ->
  found (re_search true (Bol ;; Star Space ;; r) t)
  = existsb (fun sp => starts_ci sp t) sps.
Proof.
  intros W Ht. apply Bool.eq_iff_eq_true.
  rewrite found_anchored_iff, <- (matches_prefix_words r sps None t None W).
  split.
  - intros [c' M]. cbn [matches] in M. destruct M as (c1 & (ws & R) & M).
    apply reads_span in R. destruct R as [S A].
    destruct ws as [|a ws].
    + apply span_nil in S. subst c1. now exists c'.
    + destruct S as [[E _] _]. cbn [rest] in E. rewrite E in Ht.
      simpl in A, Ht. apply andb_true_iff in A. destruct A as [A _].
      rewrite A in Ht. discriminate.
  - intros [c' M]. exists c'. cbn [matches]. exists (Cur None t None).
    split; [|exact M]. exists []. now apply reads_nil.
Qed.

(** A search succeeds exactly when the pattern matches at some position. *)
Lemma search_found_iff (ic : bool) (r : regex) (t : str) :
  found (re_search ic r t) = true
  <-> exists pre post c',
        t = pre ++ post /\ matches ic r (Cur (after None pre) post None) c'.
Proof.
  unfold re_search. split.
  - destruct (search_from ic r None t) as [c'|] eqn:S; [|discriminate].
    intros _. destruct (search_from_some _ _ _ _ _ S) as (pre & post & E & M & _).
    exists pre, post, c'. split; [exact E | now apply match_at_some].
  - intros (pre & post & c' & E & M).
    destruct (search_from ic r None t) as [x|] eqn:S; [reflexivity|].
    exfalso. apply run_matches in M.
    now rewrite (search_from_none _ _ _ _ S pre post E) in M.
Qed.

Lemma found_cep (t : str) :
  found (re_search true CEP_PATTERN t) = true <-> has_cep t.
Proof.
  rewrite search_found_iff. split.
  - intros (pre & post & c' & E & M). cbn [matches CEP_PATTERN] in M.
    destruct M as (c1 & L & c2 & (ws & Rw) & c3 & (d5 & L5 & R5) & c4
                   & (a & Ra) & (d3 & L3 & R3)).
    apply matches_lits in L. destruct L as (c & Lc & Sc).
    apply reads_span in Rw, R5, Ra, R3.
    destruct Rw as [Sw Aw], R5 as [S5 A5], Ra as [Sa Aa], R3 as [S3 A3].
    sep_char Aa.
    exists pre, c, ws, d5, d3, (rest c'). repeat split; auto.
    assert (S : span (c ++ ws ++ d5 ++ txt "-" ++ d3)
                  (Cur (after None pre) post None) c').
    { repeat (eapply span_trans; [eassumption|]). exact S3. }
    destruct S as [[Ep _] _]. cbn [rest] in Ep. rewrite Ep.
    now rewrite <- !app_assoc.
  - intros (pre & c & ws & d5 & d3 & post & E & Lc & Aw & L5 & A5 & L3 & A3).
    exists pre, (c ++ ws ++ d5 ++ txt "-" ++ d3 ++ post). eexists.
    split; [exact E|]. cbn [matches CEP_PATTERN].
    eexists. split.
    { apply matches_lits. exists c. split; [exact Lc | apply span_intro]. }
    eexists. split.
    { exists ws. now apply reads_intro. }
    eexists. split.
    { exists d5. split; [exact L5 | now apply reads_intro]. }
    eexists. split.
    { exists "-"%char. now apply (reads_intro true (Lit "-") (txt "-")). }
    exists d3. split; [exact L3|].
    apply (reads_intro true Digit d3 post). exact A3.
Qed.

Lemma found_page_mark (t : str) :
  found (re_search true
           (Bol ;; lits (txt "fls") ;; Chr (Lit ".") ;; Star Space ;; Plus Digit) t)
  = true
  <-> is_page_mark t.
Proof.
  rewrite found_anchored_iff. split.
  - intros (c' & M). cbn [matches] in M.
    destruct M as (c1 & L & c2 & (a & Ra) & c3 & (ws & Rw) & (ds & Nd & Rd)).
    apply matches_lits in L. destruct L as (x & Lx & Sx).
    apply reads_span in Ra, Rw, Rd.
    destruct Ra as [Sa Aa], Rw as [Sw Aw], Rd as [Sd Ad].
    sep_char Aa. destruct ds as [|d ds]; [contradiction|].
    exists (x ++ txt "."), ws, d, (ds ++ rest c'). repeat split.
    + assert (S : span (x ++ txt "." ++ ws ++ d :: ds) (Cur None t None) c').
      { repeat (eapply span_trans; [eassumption|]). exact Sd. }
      destruct S as [[E _] _]. cbn [rest] in E. rewrite E.
      rewrite <- !app_assoc. cbn [app]. reflexivity.
    + now apply (lit_eq_app true (txt "fls") (txt ".")).
    + exact Aw.
    + simpl in Ad. apply andb_true_iff in Ad. apply Ad.
  - intros (f & ws & d & post & E & Lf & Aw & Ad).
    apply (lit_eq_app_inv true (txt "fls") (txt ".")) in Lf.
    destruct Lf as (x & y & -> & Lx & Ly).
    destruct y as [|a [|? ?]]; simpl in Ly; try discriminate;
      [|rewrite andb_false_r in Ly; discriminate].
    rewrite andb_true_r in Ly.
    apply char_eq_uncased in Ly; [subst a | reflexivity].
    subst t. rewrite <- app_assoc. eexists. cbn [matches].
    eexists. split.
    { apply matches_lits. exists x. split; [exact Lx | apply span_intro]. }
    eexists. split.
    { exists "."%char. now apply (reads_intro true (Lit ".") (txt ".")). }
    eexists. split.
    { exists ws. now apply reads_intro. }
    exists [d]. split; [discriminate|].
    apply (reads_intro true Digit [d] post). simpl. now rewrite Ad.
Qed.

(** Boolean facts of the goal as opaque propositions. *)
Ltac abstract_atoms :=
  repeat match goal with
         | |- context [?b = true] =>
             let P := fresh "P" in set (P := b = true); clearbody P
         end.

Lemma no_cep_in_empty : ~ has_cep [].
Proof.
  intros (pre & c & ws & d5 & d3 & post & E & Lc & _).
  symmetry in E. apply app_eq_nil in E. destruct E as [_ E].
  apply app_eq_nil in E. destruct E as [-> _]. discriminate Lc.
Qed.

Lemma no_page_mark_in_empty : ~ is_page_mark [].
Proof.
  intros (f & ws & d & post & E & Lf & _).
  symmetry in E. apply app_eq_nil in E. destruct E as [-> _]. discriminate Lf.
Qed.

(** X1. A line is a header exactly when, once trimmed, it starts (case
    ignored) with PODER JUDICIARIO in either spelling, [Comarca de],
    [Vara ], Forum in either spelling, [Tel] or [Email], or holds a postal
    code anywhere. *)
Theorem header_line_shape :
  forall line : str,
    is_header_line line = true
    <-> existsb (fun w => starts_ci w (strip line)) header_words = true
        \/ has_cep (strip line).
Proof.
  intros line. unfold is_header_line.
  destruct (is_empty (strip line)) eqn:Ee.
  - apply is_empty_true in Ee. rewrite Ee. split; [discriminate|].
    intros [H|H]; [discriminate H | now apply no_cep_in_empty in H].
  - apply is_empty_false in Ee. destruct (strip_trimmed _ Ee) as [Hs _].
    set (t := strip line) in *.
    rewrite <- found_cep. unfold any_search, HEADER_PATTERNS. cbn [existsb].
    rewrite (found_anchored_words
               (lits (txt "PODER JUDICI") ;; Chr (OneOf [A_acute; "A"%char])
                  ;; lits (txt "RIO"))
               [txt "PODER JUDICI" ++ [A_acute] ++ txt "RIO";
                txt "PODER JUDICIARIO"] t eq_refl).
    rewrite (found_anchored_words (lits (txt "Comarca de"))
               [txt "Comarca de"] t eq_refl).
    rewrite (found_anchored_words (lits (txt "Vara ")) [txt "Vara "] t eq_refl).
    rewrite (found_anchored_words
               (Chr (Lit "F") ;; Chr (OneOf ["o"%char; o_acute]) ;; lits (txt "rum"))
               [txt "Forum"; txt "F" ++ [o_acute] ++ txt "rum"] t eq_refl).
    rewrite (found_anchored_spaces_words (lits (txt "Tel")) [txt "Tel"] t
               eq_refl Hs).
    rewrite (found_anchored_spaces_words (lits (txt "Email")) [txt "Email"] t
               eq_refl Hs).
    unfold header_words. cbn [existsb].
    rewrite !orb_false_r, !orb_true_iff. abstract_atoms. tauto.
Qed.

(** X2. A line is a footer exactly when, once trimmed, it starts (case
    ignored) with one of the three notices or with a page mark: [fls.],
    optional white space and a digit. *)
Theorem footer_line_shape :
  forall line : str,
    is_footer_line line = true
    <-> existsb (fun w => starts_ci w (strip line)) footer_words = true
        \/ is_page_mark (strip line).
Proof.
  intros line. unfold is_footer_line.
  destruct (is_empty (strip line)) eqn:Ee.
  - apply is_empty_true in Ee. rewrite Ee. split; [discriminate|].
    intros [H|H]; [discriminate H | now apply no_page_mark_in_empty in H].
  - set (t := strip line) in *.
    rewrite <- found_page_mark. unfold any_search, FOOTER_PATTERNS. cbn [existsb].
    rewrite (found_anchored_words
               (lits (txt "Este documento " ++ [e_acute] ++ txt " c" ++ [o_acute]
                      ++ txt "pia do original"))
               [txt "Este documento " ++ [e_acute] ++ txt " c" ++ [o_acute]
                  ++ txt "pia do original"] t eq_refl).
    rewrite (found_anchored_words (lits (txt "Para conferir o original"))
               [txt "Para conferir o original"] t eq_refl).
    rewrite (found_anchored_words
               (lits (txt "Documento eletr" ++ [o_circ] ++ txt "nico assinado por"))
               [txt "Documento eletr" ++ [o_circ] ++ txt "nico assinado por"]
               t eq_refl).
    unfold footer_words. cbn [existsb].
    rewrite !orb_false_r, !orb_true_iff. abstract_atoms. tauto.
Qed.

(** X3. The two tests read the trimmed line only: white space around a line
    does not change them, and a blank line is neither a header nor a
    footer. *)
Theorem classification_reads_trimmed_line :
  forall line : str,
    is_header_line (strip line) = is_header_line line
    /\ is_footer_line (strip line) = is_footer_line line
    /\ (strip line = [] ->
        is_header_line line = false /\ is_footer_line line = false).
Proof.
  intros line. unfold is_header_line, is_footer_line.
  rewrite strip_idempotent. split; [reflexivity | split; [reflexivity|]].
  intros E. rewrite E. split; reflexivity.
Qed.

Lemma classification_reads_trimmed_line_witness :
  is_header_line (txt "   ") = false /\ is_footer_line (txt "   ") = false.
Proof.
  apply (proj2 (proj2 (classification_reads_trimmed_line (txt "   ")))).
  reflexivity.
Defined.

(** ** Lines handed to the reflow *)

Lemma page_lines_clean (text : str) :
  Forall (fun l => is_header_line l = false /\ is_footer_line l = false
                   /\ (strip l = [] -> l = []))
         (page_lines text).
Proof.
  apply Forall_forall. intros l H. unfold page_lines in H.
  apply in_flat_map in H. destruct H as (line & _ & H).
  destruct (is_header_line line || is_footer_line line) eqn:B; [destruct H|].
  apply orb_false_iff in B. destruct B as [Bh Bf].
  destruct (is_empty (strip line)) eqn:E; destruct H as [<-|[]].
  - repeat split; reflexivity.
  - repeat split; auto. intros Z. apply is_empty_false in E. contradiction.
Qed.

(** X4. Whatever the pages hold, no header line, no footer line and no
    white-space-only line other than the empty line reaches the reflow. *)
Theorem cleaned_lines_have_no_boilerplate :
  forall pages : list page_outcome,
    Forall (fun l => is_header_line l = false /\ is_footer_line l = false
                     /\ (strip l = [] -> l = []))
           (snd (read_pages pages)).
Proof.
  intros pages. rewrite read_pages_texts. cbn [snd].
  apply Forall_flat_map. apply Forall_forall. intros text _.
  apply page_lines_clean.
Qed.

(** ** Paragraphs of the reflow *)

Lemma flush_keeps_trimmed (merged : list str) (buffer : str) :
  Forall trimmed merged -> buffer_ok buffer -> Forall trimmed (flush merged buffer).
Proof.
  intros Hm Hb. unfold flush. destruct (is_empty buffer) eqn:E; [exact Hm|].
  apply Forall_app. split; [exact Hm|]. constructor; [|constructor].
  destruct Hb as [->|Hb]; [discriminate|]. now rewrite strip_of_trimmed.
Qed.

Lemma merge_step_keeps_trimmed (merged : list str) (buffer raw_line : str) :
  Forall trimmed merged -> buffer_ok buffer ->
  Forall trimmed (fst (merge_step (merged, buffer) raw_line)).
Proof.
  intros Hm Hb. unfold merge_step.
  destruct (is_empty (strip raw_line)) eqn:E;
    [now apply flush_keeps_trimmed|].
  apply is_empty_false in E. pose proof (strip_trimmed _ E) as Ht.
  destruct (hard_break (strip raw_line)).
  - cbn [fst]. apply Forall_app. split; [now apply flush_keeps_trimmed|].
    now constructor.
  - destruct (is_empty buffer) eqn:Eb; [exact Hm|].
    destruct (found (re_search false end_of_sentence buffer)); [|exact Hm].
    cbn [fst]. apply Forall_app. split; [exact Hm|]. constructor; [|constructor].
    destruct Hb as [->|Hb]; [discriminate|]. now rewrite strip_of_trimmed.
Qed.

Lemma fold_merge_keeps_trimmed (lines : list str) :
  forall (merged : list str) (buffer : str),
    Forall trimmed merged -> buffer_ok buffer ->
    Forall trimmed (fst (fold_left merge_step lines (merged, buffer)))
    /\ buffer_ok (snd (fold_left merge_step lines (merged, buffer))).
Proof.
  induction lines as [|l lines IH]; intros merged buffer Hm Hb.
  - split; assumption.
  - cbn [fold_left].
    pose proof (merge_step_keeps_trimmed merged buffer l Hm Hb) as H1.
    pose proof (merge_step_buffer_ok merged buffer l Hb) as H2.
    destruct (merge_step (merged, buffer) l) as [m' b']. now apply IH.
Qed.

(** X5. Every paragraph returned by [merge_lines] is non-empty and has no
    white space at its ends. *)
Theorem merge_lines_paragraphs_trimmed :
  forall lines : list str,
    Forall (fun p => p <> [] /\ trimmed p) (merge_lines lines).
Proof.
  intros lines. rewrite merge_lines_eq. unfold merge_loop.
  destruct (fold_merge_keeps_trimmed lines [] [] (Forall_nil _) (or_introl eq_refl))
    as [Hm Hb].
  eapply Forall_impl; [|apply flush_keeps_trimmed; eassumption].
  intros p Hp. split; [now apply trimmed_nonempty | exact Hp].
Qed.

(** X6. A blank line ends the paragraph in progress and leaves nothing
    else: the paragraphs of the lines around it are those of the lines before
    it followed by those of the lines after it. *)
Theorem merge_lines_blank_line :
  forall (pre post : list str) (blank : str),
    strip blank = [] ->
    merge_lines (pre ++ blank :: post) = merge_lines pre ++ merge_lines post.
Proof.
  intros pre post blank Hb.
  rewrite (merge_lines_eq (pre ++ blank :: post)). unfold merge_loop.
  rewrite fold_left_app. cbn [fold_left].
  change (fold_left merge_step pre ([], [])) with (merge_loop pre).
  assert (Hstep : merge_step (merge_loop pre) blank = (merge_lines pre, [])).
  { unfold merge_lines. destruct (merge_loop pre) as [m b].
    unfold merge_step. now rewrite Hb. }
  rewrite Hstep. apply merge_lines_cons_state.
Qed.

Lemma merge_lines_blank_line_witness :
  merge_lines ([txt "first part"] ++ txt "   " :: [txt "second part"])
  = merge_lines [txt "first part"] ++ merge_lines [txt "second part"].
Proof.
  apply (merge_lines_blank_line [txt "first part"] [txt "second part"] (txt "   ")).
  reflexivity.
Defined.

Lemma join_cons_nonempty (sep x : str) (l : list str) :
  l <> [] -> join sep (x :: l) = x ++ sep ++ join sep l.
Proof. destruct l; [contradiction | reflexivity]. Qed.

(** Two neighbours joined by the separator read as one element. *)
Lemma join_merge (sep : str) (xs : list str) (y z : str) (zs : list str) :
  join sep (xs ++ (y ++ sep ++ z) :: zs) = join sep (xs ++ y :: z :: zs).
Proof.
  induction xs as [|x xs IH].
  - cbn [app]. destruct zs as [|w zs].
    + reflexivity.
    + rewrite !join_cons_nonempty by discriminate.
      now rewrite <- !app_assoc.
  - cbn [app]. rewrite !join_cons_nonempty by (destruct xs; discriminate).
    now rewrite IH.
Qed.

Lemma solid_lines_cons (l : str) (lines : list str) :
  solid_lines (l :: lines)
  = if is_empty (strip l) then solid_lines lines
    else strip l :: solid_lines lines.
Proof. unfold solid_lines. cbn [map filter]. now destruct (is_empty (strip l)). Qed.

Lemma flush_empty (merged : list str) : flush merged [] = merged.
Proof. reflexivity. Qed.

Lemma flush_nonempty (merged : list str) (buffer : str) :
  is_empty buffer = false -> flush merged buffer = merged ++ [strip buffer].
Proof. intros H. unfold flush. now rewrite H. Qed.

(** The text of the paragraphs, read with single spaces, is the text of the
    lines. *)
Lemma fold_merge_text (lines : list str) :
  forall (merged : list str) (buffer : str),
    buffer_ok buffer ->
    join (txt " ") (flush (fst (fold_left merge_step lines (merged, buffer)))
                          (snd (fold_left merge_step lines (merged, buffer))))
    = join (txt " ") (flush merged buffer ++ solid_lines lines).
Proof.
  induction lines as [|l lines IH]; intros merged buffer Hb.
  - cbn [fold_left fst snd]. unfold solid_lines. cbn [map filter].
    now rewrite app_nil_r.
  - cbn [fold_left]. rewrite solid_lines_cons.
    pose proof (merge_step_buffer_ok merged buffer l Hb) as Hb'.
    unfold merge_step in *.
    destruct (is_empty (strip l)) eqn:E.
    + rewrite IH by exact Hb'. now rewrite flush_empty.
    + destruct (hard_break (strip l)).
      * rewrite IH by exact Hb'. rewrite flush_empty.
        now rewrite <- app_assoc.
      * destruct (is_empty buffer) eqn:Eb.
        -- rewrite IH by exact Hb'. apply is_empty_true in Eb. subst buffer.
           rewrite flush_empty, (flush_nonempty _ _ E), strip_idempotent.
           now rewrite <- app_assoc.
        -- destruct Hb as [->|Ht]; [discriminate|].
           destruct (found (re_search false end_of_sentence buffer)).
           ++ rewrite IH by exact Hb'.
              rewrite (flush_nonempty _ _ E), (flush_nonempty _ _ Eb),
                strip_idempotent.
              now rewrite <- !app_assoc.
           ++ rewrite IH by exact Hb'. cbn [snd] in Hb'.
              destruct Hb' as [Z|Ht']; [destruct buffer; discriminate Z|].
              rewrite (flush_trimmed _ _ Ht'), (flush_trimmed _ _ Ht).
              rewrite <- !app_assoc. cbn [app]. apply join_merge.
Qed.

(** X7. [merge_lines] neither drops, repeats nor reorders text: its
    paragraphs joined by single spaces read as the trimmed non-blank lines
    joined by single spaces. *)
Theorem merge_lines_keeps_text :
  forall lines : list str,
    join (txt " ") (merge_lines lines) = join (txt " ") (solid_lines lines).
Proof.
  intros lines. rewrite merge_lines_eq.
  exact (fold_merge_text lines [] [] (or_introl eq_refl)).
Qed.

Lemma length_flush (merged : list str) (buffer : str) :
  length (flush merged buffer)
  = length merged + (if is_empty buffer then 0 else 1).
Proof.
  unfold flush. destruct (is_empty buffer); [lia|].
  rewrite length_app. reflexivity.
Qed.

Lemma fold_merge_count (lines : list str) :
  forall (merged : list str) (buffer : str),
    length (flush (fst (fold_left merge_step lines (merged, buffer)))
                  (snd (fold_left merge_step lines (merged, buffer))))
    <= length (flush merged buffer) + length (solid_lines lines).
Proof.
  induction lines as [|l lines IH]; intros merged buffer.
  - cbn [fold_left fst snd]. lia.
  - cbn [fold_left]. rewrite solid_lines_cons. unfold merge_step.
    destruct (is_empty (strip l)) eqn:E.
    + etransitivity; [apply IH|]. rewrite flush_empty. lia.
    + cbn [length]. destruct (hard_break (strip l)).
      * etransitivity; [apply IH|]. rewrite flush_empty, length_app. simpl. lia.
      * destruct (is_empty buffer) eqn:Eb.
        -- etransitivity; [apply IH|].
           rewrite !length_flush, E, Eb. lia.
        -- destruct (found (re_search false end_of_sentence buffer)).
           ++ etransitivity; [apply IH|].
              rewrite !length_flush, E, Eb, length_app. simpl. lia.
           ++ etransitivity; [apply IH|].
              rewrite !length_flush, Eb.
              destruct buffer; [discriminate Eb|]. simpl. lia.
Qed.

Lemma join_nonempty (sep x : str) (l : list str) :
  x <> [] -> join sep (x :: l) <> [].
Proof.
  intros Hx. destruct l; cbn [join]; [exact Hx|].
  destruct x; [contradiction | discriminate].
Qed.

Lemma solid_lines_nil (lines : list str) :
  solid_lines lines = [] <-> Forall (fun l => strip l = []) lines.
Proof.
  induction lines as [|l lines IH]; [split; [constructor | reflexivity]|].
  rewrite solid_lines_cons. destruct (is_empty (strip l)) eqn:E.
  - apply is_empty_true in E. rewrite IH. split.
    + intros H. now constructor.
    + intros H. now inversion H.
  - apply is_empty_false in E. split; [discriminate|].
    intros H. inversion H. contradiction.
Qed.

Lemma solid_lines_head (lines : list str) :
  match solid_lines lines with x :: _ => x <> [] | [] => True end.
Proof.
  induction lines as [|l lines IH]; [exact I|].
  rewrite solid_lines_cons. destruct (is_empty (strip l)) eqn:E; [exact IH|].
  now apply is_empty_false.
Qed.

(** X8. [merge_lines] returns at most one paragraph per non-blank line, and
    no paragraph at all exactly when every line is blank. *)
Theorem merge_lines_count :
  forall lines : list str,
    length (merge_lines lines) <= length (solid_lines lines)
    /\ (merge_lines lines = [] <-> Forall (fun l => strip l = []) lines).
Proof.
  intros lines.
  assert (C : length (merge_lines lines) <= length (solid_lines lines)).
  { rewrite merge_lines_eq. apply (fold_merge_count lines [] []). }
  assert (T : join (txt " ") (merge_lines lines)
              = join (txt " ") (solid_lines lines)).
  { rewrite merge_lines_eq. exact (fold_merge_text lines [] [] (or_introl eq_refl)). }
  split; [exact C|]. rewrite <- solid_lines_nil. split.
  - intros H. rewrite H in T. cbn [join] in T.
    pose proof (solid_lines_head lines) as Hh.
    destruct (solid_lines lines) as [|x l]; [reflexivity|].
    exfalso. symmetry in T. revert T. now apply join_nonempty.
  - intros H. rewrite H in C. simpl in C.
    destruct (merge_lines lines); [reflexivity | simpl in C; lia].
Qed.

(** ** Section headings, from the reflow to the markup *)

Lemma normalize_one_heading (sec : section_name) (p t : str) :
  heading_of sec p t -> normalize_one p = txt "### " ++ canonical sec ++ t.
Proof.
  intros H.
  assert (Hother : forall sec', sec' <> sec -> sub_section sec' p = p).
  { intros sec' Hne. apply sub_section_other. intros u Hu.
    apply Hne. exact (proj1 (heading_of_unique _ _ _ _ _ Hu H)). }
  rewrite normalize_one_sections. destruct sec.
  - rewrite (sub_section_heading _ _ _ H). now rewrite !sub_section_marked.
  - rewrite (Hother RELATORIO) by discriminate.
    rewrite (sub_section_heading _ _ _ H). now rewrite sub_section_marked.
  - rewrite (Hother RELATORIO), (Hother FUNDAMENTACAO) by discriminate.
    exact (sub_section_heading _ _ _ H).
Qed.

Lemma normalize_one_plain (p : str) :
  (forall sec t, ~ heading_of sec p t) -> normalize_one p = p.
Proof.
  intros H. rewrite normalize_one_sections.
  rewrite (sub_section_other RELATORIO) by apply H.
  rewrite (sub_section_other FUNDAMENTACAO) by apply H.
  apply sub_section_other. apply H.
Qed.

Lemma heading_or_not (p : str) :
  (exists sec t, heading_of sec p t) \/ (forall sec t, ~ heading_of sec p t).
Proof.
  destruct (found (re_match true sec_pattern p)) eqn:E.
  - left. now apply sec_pattern_heading.
  - right. intros sec t H.
    assert (F : found (re_match true sec_pattern p) = true)
      by (apply sec_pattern_heading; now exists sec, t).
    congruence.
Qed.

Lemma no_heading_in_markup (sec sec' : section_name) (t u : str) :
  ~ heading_of sec' (txt "### " ++ canonical sec ++ t) u.
Proof. apply no_heading_after_mark. Qed.

(** X9. [normalize_paragraphs] is idempotent, and none of the paragraphs it
    returns opens with a numbered section heading. *)
Theorem normalize_paragraphs_idempotent :
  forall merged : list str,
    normalize_paragraphs (normalize_paragraphs merged)
    = normalize_paragraphs merged
    /\ Forall (fun p => forall sec t, ~ heading_of sec p t)
              (normalize_paragraphs merged).
Proof.
  intros merged.
  assert (Hno : forall p sec t, ~ heading_of sec (normalize_one p) t).
  { intros p sec t. destruct (heading_or_not p) as [(s0 & t0 & H)|H].
    - rewrite (normalize_one_heading _ _ _ H). apply no_heading_in_markup.
    - rewrite (normalize_one_plain _ H). apply H. }
  split.
  - unfold normalize_paragraphs. rewrite map_map. apply map_ext.
    intros p. apply normalize_one_plain. apply Hno.
  - unfold normalize_paragraphs. apply Forall_forall. intros q Hq.
    apply in_map_iff in Hq. destruct Hq as (p & <- & _). apply Hno.
Qed.

Lemma heading_starts_with_digit (sec : section_name) (p t : str) :
  heading_of sec p t -> exists d u, p = d :: u /\ isdecimal d = true.
Proof.
  intros (ds & ws & nm & -> & Nd & Ad & _).
  destruct ds as [|d ds]; [contradiction|].
  simpl in Ad. apply andb_true_iff in Ad. destruct Ad as [Ad _].
  now exists d, (ds ++ txt "." ++ ws ++ nm ++ t).
Qed.

(** X10. The heading test of [merge_lines] and the substitutions of
    [normalize_paragraphs] agree: [sec_pattern] matches a paragraph exactly
    when [normalize_paragraphs] changes it. *)
Theorem heading_test_agrees_with_normalize :
  forall p : str,
    found (re_match true sec_pattern p) = true <-> normalize_one p <> p.
Proof.
  intros p. rewrite sec_pattern_heading. split.
  - intros (sec & t & H) E.
    destruct (heading_starts_with_digit _ _ _ H) as (d & u & -> & Hd).
    rewrite (normalize_one_heading _ _ _ H) in E.
    cbn [txt list_ascii_of_string app] in E. injection E as <- _.
    discriminate Hd.
  - intros Hne. destruct (heading_or_not p) as [H|H]; [exact H|].
    exfalso. apply Hne. now apply normalize_one_plain.
Qed.

Lemma heading_nonempty (sec : section_name) (p t : str) :
  heading_of sec p t -> p <> [].
Proof.
  intros H. destruct (heading_starts_with_digit _ _ _ H) as (d & u & -> & _).
  discriminate.
Qed.

(** A line that breaks paragraphs splits the output in three. *)
Lemma merge_lines_at_break (pre post : list str) (raw_line : str) :
  strip raw_line <> [] -> hard_break (strip raw_line) = true ->
  merge_lines (pre ++ raw_line :: post)
  = merge_lines pre ++ [strip raw_line] ++ merge_lines post.
Proof.
  intros Hl Hb.
  assert (Hstep : merge_step (merge_loop pre) raw_line
                  = (merge_lines pre ++ [strip raw_line], [])).
  { unfold merge_lines. destruct (merge_loop pre) as [m b]. unfold merge_step.
    apply is_empty_false in Hl. now rewrite Hl, Hb. }
  pose proof (merge_lines_cons_state post (merge_lines pre ++ [strip raw_line])) as H.
  rewrite (merge_lines_eq (pre ++ raw_line :: post)). unfold merge_loop.
  rewrite fold_left_app. cbn [fold_left].
  change (fold_left merge_step pre ([], [])) with (merge_loop pre).
  rewrite Hstep, H. now rewrite <- app_assoc.
Qed.

(** X11. A line that opens with a numbered section heading comes out of the
    reflow and the normalisation as a paragraph of its own in markup form:
    [### ], the unaccented label and the text that followed the heading on
    the line, between the normalised paragraphs of the lines before and
    after it. *)
Theorem heading_line_becomes_markup :
  forall (pre post : list str) (raw_line : str) (sec : section_name) (t : str),
    heading_of sec (strip raw_line) t ->
    normalize_paragraphs (merge_lines (pre ++ raw_line :: post))
    = normalize_paragraphs (merge_lines pre)
      ++ [txt "### " ++ canonical sec ++ t]
      ++ normalize_paragraphs (merge_lines post).
Proof.
  intros pre post raw_line sec t H.
  rewrite merge_lines_at_break.
  - unfold normalize_paragraphs. rewrite !map_app. cbn [map].
    now rewrite (normalize_one_heading _ _ _ H).
  - exact (heading_nonempty _ _ _ H).
  - unfold hard_break. apply orb_true_iff. left.
    apply sec_pattern_heading. now exists sec, t.
Qed.

Lemma heading_line_becomes_markup_witness :
  normalize_paragraphs
    (merge_lines ([txt "Vistos"] ++ txt " 2. fundamentacao: do pedido " :: [txt "Decido."]))
  = normalize_paragraphs (merge_lines [txt "Vistos"])
    ++ [txt "### " ++ canonical FUNDAMENTACAO ++ txt ": do pedido"]
    ++ normalize_paragraphs (merge_lines [txt "Decido."]).
Proof.
  apply (heading_line_becomes_markup [txt "Vistos"] [txt "Decido."]
           (txt " 2. fundamentacao: do pedido ") FUNDAMENTACAO (txt ": do pedido")).
  exists (txt "2"), (txt " "), (txt "fundamentacao").
  repeat split; try reflexivity. discriminate.
Defined.

(** ** The cleaned text *)

Lemma starts_solid_rev_app (x t : str) :
  t <> [] -> starts_solid (rev (x ++ t)) = starts_solid (rev t).
Proof.
  intros H. rewrite rev_app_distr.
  destruct (rev t) as [|a u] eqn:E; [|reflexivity].
  apply (f_equal (@rev ascii)) in E. rewrite rev_involutive in E. contradiction.
Qed.

Lemma canonical_ends_solid (sec : section_name) :
  starts_solid (rev (txt "### " ++ canonical sec)) = true.
Proof. destruct sec; reflexivity. Qed.

Lemma normalize_one_trimmed (p : str) : trimmed p -> trimmed (normalize_one p).
Proof.
  intros [Hs He]. destruct (heading_or_not p) as [(sec & t & H)|H].
  - rewrite (normalize_one_heading _ _ _ H). split; [reflexivity|].
    destruct t as [|a t].
    + rewrite app_nil_r. apply canonical_ends_solid.
    + rewrite app_assoc, starts_solid_rev_app by discriminate.
      destruct H as (ds & ws & nm & E & _). rewrite E in He.
      rewrite !app_assoc in He. now rewrite starts_solid_rev_app in He by discriminate.
  - rewrite (normalize_one_plain _ H). now split.
Qed.

Lemma join_trimmed (sep : str) (l : list str) :
  l <> [] -> Forall trimmed l -> trimmed (join sep l).
Proof.
  induction l as [|x l IH]; [contradiction|].
  intros _ H. inversion H as [|? ? Hx Hl]; subst.
  destruct l as [|y l]; [exact Hx|].
  rewrite join_cons_nonempty by discriminate.
  pose proof (IH ltac:(discriminate) Hl) as Ht.
  split.
  - apply starts_solid_app. apply Hx.
  - rewrite app_assoc, starts_solid_rev_app; [apply Ht|].
    now apply trimmed_nonempty.
Qed.

(** The cleaned text of a list of lines: the final trimming removes
    nothing, and the text is empty exactly when every line is blank. *)
Lemma clean_text_shape (cleaned : list str) :
  clean_text cleaned
  = join [LF; LF] (normalize_paragraphs (merge_lines cleaned))
  /\ Forall (fun p => p <> [] /\ trimmed p)
            (normalize_paragraphs (merge_lines cleaned))
  /\ (clean_text cleaned = [] <-> Forall (fun l => strip l = []) cleaned).
Proof.
  assert (Hm : Forall trimmed (merge_lines cleaned)).
  { rewrite merge_lines_eq. unfold merge_loop.
    destruct (fold_merge_keeps_trimmed cleaned [] [] (Forall_nil _)
                (or_introl eq_refl)) as [Hm Hb].
    now apply flush_keeps_trimmed. }
  assert (Hp : Forall trimmed (normalize_paragraphs (merge_lines cleaned))).
  { unfold normalize_paragraphs. apply Forall_forall. intros q Hq.
    apply in_map_iff in Hq. destruct Hq as (p & <- & Hin).
    apply normalize_one_trimmed. rewrite Forall_forall in Hm. now apply Hm. }
  assert (Hcount : merge_lines cleaned = []
                   <-> Forall (fun l => strip l = []) cleaned).
  { rewrite <- solid_lines_nil. split.
    - intros E.
      assert (T : join (txt " ") (merge_lines cleaned)
                  = join (txt " ") (solid_lines cleaned)).
      { rewrite merge_lines_eq.
        exact (fold_merge_text cleaned [] [] (or_introl eq_refl)). }
      rewrite E in T. cbn [join] in T.
      pose proof (solid_lines_head cleaned) as Hh.
      destruct (solid_lines cleaned) as [|x l]; [reflexivity|].
      exfalso. symmetry in T. revert T. now apply join_nonempty.
    - intros E.
      assert (C : length (merge_lines cleaned) <= length (solid_lines cleaned)).
      { rewrite merge_lines_eq. apply (fold_merge_count cleaned [] []). }
      rewrite E in C. simpl in C.
      destruct (merge_lines cleaned); [reflexivity | simpl in C; lia]. }
  unfold clean_text.
  destruct (normalize_paragraphs (merge_lines cleaned)) as [|q qs] eqn:En.
  - split; [reflexivity | split; [constructor|]].
    rewrite <- Hcount. split; [intros _ | reflexivity].
    unfold normalize_paragraphs in En. now apply map_eq_nil in En.
  - pose proof (join_trimmed [LF; LF] (q :: qs) ltac:(discriminate) Hp) as Ht.
    rewrite (strip_of_trimmed _ Ht). split; [reflexivity | split].
    + eapply Forall_impl; [|exact Hp].
      intros p Hq. split; [now apply trimmed_nonempty | exact Hq].
    + rewrite <- Hcount. split.
      * intros E. apply trimmed_nonempty in Ht. contradiction.
      * intros E. rewrite E in En. discriminate En.
Qed.

(** C5, as stated, fails: a document whose only page has no text is
    processed with success, and its cleaned text is empty; the result is
    neither a success with cleaned text nor a failure. *)
Lemma success_without_text_counterexample :
  let d := Document (txt "digitalizado.pdf") (Opens [ExtractReturns None]) None in
  let r := extrair_info_pdf d in
  sucesso r = true /\ erro r = None /\ texto_completo_limpo r = []
  /\ ~ (is_success_with_text r \/ is_failure r).
Proof.
  vm_compute. repeat split.
  intros [[_ H] | [H _]]; [now apply H | discriminate H].
Qed.

(** C5 (amended). Every result is a success or a failure and never both.  A
    success has the flag set, no error and the cleaned text of the pages:
    the normalised paragraphs of the lines kept, joined by one empty line,
    which is the empty text exactly when every line kept is blank.  A
    failure has the flag clear, an error description that is not empty, no
    text and no case number.  A source that cannot be opened and a source
    without pages give failures. *)
Theorem extrair_info_pdf_well_formed :
  (forall d : document,
      let r := extrair_info_pdf d in
      (is_success r /\ ~ is_failure r
       /\ exists pages,
            opening d = Opens pages
            /\ let cleaned_lines := flat_map page_lines (page_texts pages) in
               texto_completo_limpo r
               = join [LF; LF] (normalize_paragraphs (merge_lines cleaned_lines))
               /\ (is_success_with_text r
                   <-> Exists (fun l => strip l <> []) cleaned_lines))
      \/ (is_failure r /\ ~ is_success r /\ numeroProcesso r = None))
  /\ (forall (path msg : str) (fault : option str),
        extrair_info_pdf (Document path (OpenRaises msg) fault)
        = Resultado (path_name path) None [] false
            (Some (txt "Erro ao abrir PDF: " ++ firstn 50 msg)))
  /\ (forall (path : str) (fault : option str),
        extrair_info_pdf (Document path (Opens []) fault)
        = Resultado (path_name path) None [] false (Some msg_vazio)).
Proof.
  split; [|split; reflexivity].
  intros [path [msg|[|pg pages]] fault]; cbv zeta.
  - right. split; [|split; [|reflexivity]].
    + split; [reflexivity | split; [|reflexivity]].
      eexists. split; [reflexivity | discriminate].
    + intros [H _]. discriminate H.
  - right. split; [|split; [|reflexivity]].
    + split; [reflexivity | split; [|reflexivity]].
      eexists. split; [reflexivity | discriminate].
    + intros [H _]. discriminate H.
  - destruct fault as [e|].
    + right. rewrite extrair_info_pdf_fault by discriminate.
      split; [|split; [|reflexivity]].
      * split; [reflexivity | split; [|reflexivity]].
        eexists. split; [reflexivity | discriminate].
      * intros [H _]. discriminate H.
    + left. rewrite extrair_info_pdf_success by discriminate.
      split; [split; reflexivity | split].
      * intros [H _]. discriminate H.
      * exists (pg :: pages). split; [reflexivity|]. cbv zeta.
        cbn [texto_completo_limpo].
        set (cleaned := flat_map page_lines (page_texts (pg :: pages))).
        destruct (clean_text_shape cleaned) as (Ej & _ & Hempty).
        split; [exact Ej|].
        unfold is_success_with_text. cbn [texto_completo_limpo].
        rewrite Hempty. split.
        -- intros [_ Hn]. apply neg_Forall_Exists_neg; [|exact Hn].
           intros l. destruct (strip l); [now left | now right].
        -- intros Hex. split; [split; reflexivity|].
           intros Hall. apply Exists_exists in Hex.
           destruct Hex as (l & Hin & Hl). rewrite Forall_forall in Hall.
           now apply Hl, Hall.
Qed.

(** X12. In a successful result the cleaned text is the normalised
    paragraphs joined by one empty line: the final trimming removes nothing,
    no paragraph is empty or has white space at its ends, and the text is
    empty exactly when every line kept from the pages is blank. *)
Theorem cleaned_text_structure :
  forall (path : str) (pages : list page_outcome),
    pages <> [] ->
    let r := extrair_info_pdf (Document path (Opens pages) None) in
    let cleaned_lines := snd (read_pages pages) in
    let paragraphs := normalize_paragraphs (merge_lines cleaned_lines) in
    texto_completo_limpo r = join [LF; LF] paragraphs
    /\ Forall (fun p => p <> [] /\ trimmed p) paragraphs
    /\ (texto_completo_limpo r = []
        <-> Forall (fun l => strip l = []) cleaned_lines).
Proof.
  intros path pages H. cbv zeta.
  rewrite extrair_info_pdf_success by exact H. cbn [texto_completo_limpo].
  rewrite read_pages_texts. cbn [snd]. apply clean_text_shape.
Qed.

Lemma cleaned_text_structure_witness :
  let pages := [ExtractReturns (Some (txt "Comarca de Caucaia"));
                ExtractReturns (Some (txt "1. RELATORIO" ++ [LF] ++ txt "Vistos"
                                      ++ [LF] ++ txt "etc."))] in
  let r := extrair_info_pdf (Document (txt "a.pdf") (Opens pages) None) in
  texto_completo_limpo r
  = join [LF; LF]
      (normalize_paragraphs (merge_lines (snd (read_pages pages)))).
Proof.
  intros pages.
  apply (cleaned_text_structure (txt "a.pdf") pages
           (fun E => @nil_cons _ _ _ (eq_sym E))).
Defined.

(** ** The case number: which one, and back to the stem *)

Lemma conforms_length (template s : str) :
  conforms template s = true -> length s = length template.
Proof.
  revert s. induction template as [|t ts IH]; intros [|c cs]; simpl;
    try discriminate; [reflexivity|].
  intros H. apply andb_true_iff in H. destruct H as [_ H]. now rewrite (IH _ H).
Qed.

Lemma case_number_head (tok : str) :
  is_case_number tok = true -> exists d u, tok = d :: u /\ isdecimal d = true.
Proof.
  unfold is_case_number. destruct tok as [|d u]; [discriminate|].
  intros H. simpl in H. apply andb_true_iff in H. destruct H as [H _].
  now exists d, u.
Qed.

Lemma decimal_not_space (a : ascii) : isdecimal a = true -> isspace a = false.
Proof. all_chars a; vm_compute; congruence. Qed.

Lemma letter_n_solid (n : ascii) : char_eq true "n" n = true -> isspace n = false.
Proof.
  intros H. destruct (isspace n) eqn:E; [|reflexivity].
  rewrite (char_eq_not_space "n" n) in H; [discriminate | reflexivity | exact E].
Qed.

(** From one position, the label and the number that follow are
    determined. *)
Lemma labelled_token_unique (lab1 tok1 post1 lab2 tok2 post2 : str) :
  lab1 ++ tok1 ++ post1 = lab2 ++ tok2 ++ post2 ->
  label_shape lab1 -> label_shape lab2 ->
  is_case_number tok1 = true -> is_case_number tok2 = true ->
  tok1 = tok2.
Proof.
  intros E (w1 & s1 & n1 & o1 & u1 & -> & Lw1 & _ & As1 & An1 & _ & Au1)
           (w2 & s2 & n2 & o2 & u2 & -> & Lw2 & _ & As2 & An2 & _ & Au2) T1 T2.
  rewrite <- !app_assoc in E.
  apply app_eq_same_length in E;
    [|rewrite (lit_eq_length _ _ _ Lw1), (lit_eq_length _ _ _ Lw2); reflexivity].
  destruct E as [_ E].
  apply (run_prefix_unique isspace) in E; try assumption;
    try (cbn [app]; now apply letter_n_solid).
  destruct E as [_ E]. cbn [app txt list_ascii_of_string] in E.
  injection E as _ _ E.
  destruct (case_number_head _ T1) as (d1 & v1 & -> & D1).
  destruct (case_number_head _ T2) as (d2 & v2 & -> & D2).
  apply (run_prefix_unique isspace) in E; try assumption;
    try (cbn [app]; now apply decimal_not_space).
  destruct E as [_ E].
  apply app_eq_same_length in E; [tauto|].
  unfold is_case_number in T1, T2.
  now rewrite (conforms_length _ _ T1), (conforms_length _ _ T2).
Qed.

(** X13. The number returned is the one that follows the leftmost label,
    whatever comes later in the text and whatever the file name; in
    particular a number written after a label at the start of the text is
    read back as written. *)
Theorem leftmost_label_decides :
  (forall text nome_arquivo pre tok : str,
      labelled_at text pre tok ->
      (forall pre0 tok0, labelled_at text pre0 tok0 -> length pre <= length pre0) ->
      extrair_numero_processo text nome_arquivo = Some tok)
  /\ (forall lab tok post nome_arquivo : str,
        label_shape lab -> is_case_number tok = true ->
        extrair_numero_processo (lab ++ tok ++ post) nome_arquivo = Some tok).
Proof.
  assert (Hleft : forall text nome_arquivo pre tok : str,
             labelled_at text pre tok ->
             (forall pre0 tok0, labelled_at text pre0 tok0 ->
                                length pre <= length pre0) ->
             extrair_numero_processo text nome_arquivo = Some tok).
  { intros text nome_arquivo pre tok Hl Hmin.
    pose proof (search_padrao_numero text) as S.
    unfold extrair_numero_processo.
    destruct (re_search true padrao_numero text) as [m|];
      [|exfalso; exact (S _ _ Hl)].
    destruct S as (pre' & tok' & Hc & Hl' & Hmin').
    rewrite Hc. f_equal.
    pose proof (Hmin _ _ Hl') as L1. pose proof (Hmin' _ _ Hl) as L2.
    destruct Hl as (lab & post & E & Sl & Tl).
    destruct Hl' as (lab' & post' & E' & Sl' & Tl').
    rewrite E in E'. apply app_eq_same_length in E'; [|lia].
    destruct E' as [_ E']. symmetry.
    exact (labelled_token_unique _ _ _ _ _ _ E' Sl Sl' Tl Tl'). }
  split; [exact Hleft|].
  intros lab tok post nome_arquivo Sl Tl.
  apply (Hleft _ _ [] tok).
  - now exists lab, post.
  - intros pre0 tok0 _. simpl. lia.
Qed.

Lemma leftmost_label_decides_witness :
  extrair_numero_processo
    ((txt "PROCESSO N#:" ++ [LF]) ++ txt "0000498-37.2018.8.06.0127"
       ++ txt " e Processo n#: 1111111-11.1111.1.11.1111")
    (txt "22222222222222222222.pdf")
  = Some (txt "0000498-37.2018.8.06.0127").
Proof.
  apply (proj2 leftmost_label_decides (txt "PROCESSO N#:" ++ [LF])
           (txt "0000498-37.2018.8.06.0127")
           (txt " e Processo n#: 1111111-11.1111.1.11.1111")
           (txt "22222222222222222222.pdf")); [|reflexivity].
  exists (txt "PROCESSO"), (txt " "), "N"%char, "#"%char, [LF].
  repeat split; try reflexivity; [discriminate | now right].
Defined.

Lemma digit_not_separator (a : ascii) : isdigit a = true -> not_separator a = true.
Proof. all_chars a; vm_compute; congruence. Qed.

Lemma filter_all (f : ascii -> bool) (s : str) :
  forallb f s = true -> filter f s = s.
Proof.
  induction s as [|a s IH]; simpl; [reflexivity|].
  intros H. apply andb_true_iff in H. destruct H as [-> H]. now rewrite IH.
Qed.

Lemma forallb_digit_not_separator (s : str) :
  forallb isdigit s = true -> forallb not_separator s = true.
Proof.
  induction s as [|a s IH]; simpl; [reflexivity|].
  intros H. apply andb_true_iff in H. destruct H as [Ha H].
  now rewrite (digit_not_separator _ Ha), IH.
Qed.

Lemma forallb_firstn (f : ascii -> bool) (n : nat) (s : str) :
  forallb f s = true -> forallb f (firstn n s) = true.
Proof.
  revert s. induction n as [|n IH]; intros [|a s]; simpl; auto.
  intros H. apply andb_true_iff in H. destruct H as [-> H]. now apply IH.
Qed.

Lemma forallb_skipn (f : ascii -> bool) (n : nat) (s : str) :
  forallb f s = true -> forallb f (skipn n s) = true.
Proof.
  revert s. induction n as [|n IH]; intros [|a s]; simpl; auto.
  intros H. apply andb_true_iff in H. destruct H as [_ H]. now apply IH.
Qed.

Lemma forallb_slice (f : ascii -> bool) (s : str) (a b : nat) :
  forallb f s = true -> forallb f (slice s a b) = true.
Proof. intros H. unfold slice. now apply forallb_firstn, forallb_skipn. Qed.

(** The six groups of [formatar] are the stem cut at the fixed offsets. *)
Lemma formatar_groups (stem : str) :
  length stem = 20 ->
  slice stem 0 7 ++ slice stem 7 9 ++ slice stem 9 13 ++ slice stem 13 14
    ++ slice stem 14 16 ++ slice stem 16 20 = stem.
Proof. intros L. explode stem L. reflexivity. Qed.

Lemma formatar_without_separators (stem : str) :
  length stem = 20 -> forallb isdigit stem = true ->
  filter not_separator (formatar stem) = stem.
Proof.
  intros L D. apply forallb_digit_not_separator in D.
  unfold formatar. rewrite !filter_app.
  rewrite !(filter_all not_separator (slice stem _ _))
    by now apply forallb_slice.
  change (filter not_separator (txt "-")) with (@nil ascii).
  change (filter not_separator (txt ".")) with (@nil ascii).
  cbn [app]. now apply formatar_groups.
Qed.

Lemma formatar_length (stem : str) :
  length stem = 20 -> length (formatar stem) = 25.
Proof. intros L. explode stem L. reflexivity. Qed.

Lemma formatar_conforms_inv (stem : str) :
  length stem = 20 -> is_case_number (formatar stem) = true ->
  forallb isdecimal stem = true.
Proof.
  intros L H. explode stem L.
  unfold is_case_number, formatar, slice in H. cbn in H.
  repeat match goal with
         | H : _ && _ = true |- _ =>
             let K := fresh "K" in
             apply andb_true_iff in H; destruct H as [K H]
         end.
  cbn [forallb].
  repeat match goal with
         | K : isdecimal _ = true |- _ => rewrite K; clear K
         end.
  reflexivity.
Qed.

(** X14. When the number comes from the file name, taking the hyphen and
    the dots out of it gives the stem back; the result has 25 characters, and
    it is of the case-number format exactly when the stem is made of decimal
    digits. *)
Theorem file_name_number_round_trip :
  forall text nome_arquivo r : str,
    (forall pre tok, ~ labelled_at text pre tok) ->
    extrair_numero_processo text nome_arquivo = Some r ->
    filter not_separator r = path_stem nome_arquivo
    /\ length r = 25
    /\ (is_case_number r = true
        <-> forallb isdecimal (path_stem nome_arquivo) = true).
Proof.
  intros text nome_arquivo r Hno.
  pose proof (search_padrao_numero text) as S.
  unfold extrair_numero_processo.
  destruct (re_search true padrao_numero text) as [m|].
  { destruct S as (pre & tok & _ & Hl & _). exfalso. exact (Hno _ _ Hl). }
  set (stem := path_stem nome_arquivo). clearbody stem.
  destruct (length stem =? 20) eqn:L; [|discriminate].
  unfold str_isdigit. destruct (is_empty stem); [discriminate|].
  destruct (forallb isdigit stem) eqn:D; [|discriminate].
  cbn [negb andb]. intros E. injection E as <-.
  apply Nat.eqb_eq in L. split; [|split; [|split]].
  - now apply formatar_without_separators.
  - now apply formatar_length.
  - now apply formatar_conforms_inv.
  - now apply formatar_conforms.
Qed.

Lemma file_name_number_round_trip_witness :
  filter not_separator (txt "0000498-37.2018.8.06.0127")
  = path_stem (txt "autos/00004983720188060127.pdf")
  /\ length (txt "0000498-37.2018.8.06.0127") = 25
  /\ (is_case_number (txt "0000498-37.2018.8.06.0127") = true
      <-> forallb isdecimal (path_stem (txt "autos/00004983720188060127.pdf"))
          = true).
Proof.
  apply (file_name_number_round_trip (txt "sem rotulo")
           (txt "autos/00004983720188060127.pdf")
           (txt "0000498-37.2018.8.06.0127")); [|reflexivity].
  intros pre tok Hl.
  pose proof (search_padrao_numero (txt "sem rotulo")) as S.
  assert (E : re_search true padrao_numero (txt "sem rotulo") = None)
    by (vm_compute; reflexivity).
  rewrite E in S. exact (S pre tok Hl).
Defined.

(** ** The judge's title *)

(** A code point of Latin-1 is the code point of a character. *)
Lemma latin1_code_point (c : N) :
  (c <? 256)%N = true -> exists a : ascii, c = cp a /\ ascii_of_N c = a.
Proof.
  intros H. apply N.ltb_lt in H. exists (ascii_of_N c).
  split; [|reflexivity]. unfold cp. symmetry. now apply N_ascii_embedding.
Qed.

Ltac wide_cases c :=
  repeat match goal with
         | |- context [N.eqb c ?k] =>
             destruct (N.eqb_spec c k); [try lia; subst c|]
         end;
  try reflexivity; try lia.

Ltac class_cases c :=
  unfold uchar_eq;
  let E := fresh "E" in
  destruct (c <? 256)%N eqn:E;
  [ let a := fresh "a" in
    let Ha := fresh "Ha" in
    destruct (latin1_code_point c E) as (a & -> & Ha); rewrite ?Ha; clear Ha E;
    all_chars a; vm_compute; reflexivity
  | apply N.ltb_ge in E; vm_compute wide_equivalents; cbn [among existsb];
    unfold dotted_I, dotless_i in *; wide_cases c ].

Lemma accepts_letters (c : N) :
  uaccepts (ULit (cp "J")) c = among [74; 106]%N c
  /\ uaccepts (ULit (cp "u")) c = among [85; 117]%N c
  /\ uaccepts (UOneOf [cp "i"; cp i_acute]) c
     = among [73; 105; 205; 237; dotted_I; dotless_i]%N c
  /\ uaccepts (ULit (cp "z")) c = among [90; 122]%N c
  /\ uaccepts (UOneOf [cp "a"; cp "e"]) c = among [65; 97; 69; 101]%N c.
Proof.
  cbn [uaccepts existsb]. repeat split; class_cases c.
Qed.

(** What the letters of the pattern read at a position. *)
Lemma read_padrao_juiz (p : option N) (s : ustr) :
  read_classes padrao_juiz p s
  = match s with
    | j :: u :: i :: z :: a :: r =>
        if juiz_word [j; u; i; z; a] then Some (Some a, [j; u; i; z; a], r)
        else None
    | _ => None
    end.
Proof.
  unfold padrao_juiz.
  destruct s as [|j [|u [|i [|z [|a r]]]]]; cbn [read_classes juiz_word];
    repeat match goal with
           | |- context [uaccepts _ ?c] =>
               let H1 := fresh in
               let H2 := fresh in
               let H3 := fresh in
               let H4 := fresh in
               let H5 := fresh in
               destruct (accepts_letters c) as (H1 & H2 & H3 & H4 & H5);
               rewrite ?H1, ?H2, ?H3, ?H4, ?H5; clear H1 H2 H3 H4 H5
           end;
    repeat match goal with
           | |- context [among ?l ?c] => destruct (among l c)
           end;
    reflexivity.
Qed.

Lemma title_end_is_word (wide_word : N -> bool) (a : N) :
  among [65; 97; 69; 101]%N a = true -> uword wide_word a = true.
Proof.
  cbn [among existsb]. intros H.
  repeat (apply orb_true_iff in H; destruct H as [H|H]);
    try discriminate H; apply N.eqb_eq in H; subst a; reflexivity.
Qed.

Lemma juiz_word_length (w : ustr) : juiz_word w = true -> length w = 5.
Proof.
  destruct w as [|j [|u [|i [|z [|a [|]]]]]]; try discriminate. reflexivity.
Qed.

(** The pattern matches at a position exactly when the text there starts
    with a title followed by no word character; the character before the
    position plays no part. *)
Lemma match_juiz_at_iff (wide_word : N -> bool) (p : option N) (s g : ustr) :
  match_juiz_at wide_word p s = Some g
  <-> exists r, s = g ++ r /\ juiz_word g = true
                /\ starts_uword wide_word r = false.
Proof.
  unfold match_juiz_at. rewrite read_padrao_juiz. split.
  - destruct s as [|j [|u [|i [|z [|a r]]]]]; try discriminate.
    destruct (juiz_word [j; u; i; z; a]) eqn:W; [|discriminate].
    unfold uboundary.
    assert (Ha : uword wide_word a = true).
    { apply title_end_is_word. cbn [juiz_word] in W.
      now apply andb_true_iff in W. }
    rewrite Ha. fold (starts_uword wide_word r).
    destruct (starts_uword wide_word r) eqn:R; [discriminate|].
    intros E. injection E as <-. exists r.
    split; [reflexivity | split; [exact W | exact R]].
  - intros (r & -> & W & R).
    destruct g as [|j [|u [|i [|z [|a [|]]]]]]; try discriminate.
    cbn [app]. rewrite W. unfold uboundary.
    assert (Ha : uword wide_word a = true).
    { apply title_end_is_word. cbn [juiz_word] in W.
      now apply andb_true_iff in W. }
    rewrite Ha. fold (starts_uword wide_word r). now rewrite R.
Qed.

Lemma juiz_at_start (wide_word : N -> bool) (p : option N) (s w : ustr) :
  juiz_at wide_word s [] w -> match_juiz_at wide_word p s = Some w.
Proof.
  intros (post & E & W & R). apply match_juiz_at_iff. now exists post.
Qed.

Lemma juiz_at_later (wide_word : N -> bool) (c : N) (t pre w : ustr) :
  juiz_at wide_word (c :: t) pre w ->
  juiz_at wide_word (c :: t) [] w
  \/ exists pre', pre = c :: pre' /\ juiz_at wide_word t pre' w.
Proof.
  intros (post & E & W & R). destruct pre as [|b pre'].
  - left. now exists post.
  - right. cbn [app] in E. injection E as <- E. exists pre'.
    split; [reflexivity|]. now exists post.
Qed.

(** The search reports the leftmost title of the text. *)
Lemma search_juiz_leftmost (wide_word : N -> bool) (s : ustr) :
  forall p : option N,
    match search_juiz wide_word p s with
    | Some g =>
        exists pre,
          juiz_at wide_word s pre g
          /\ forall pre0 w0, juiz_at wide_word s pre0 w0 ->
                             length pre <= length pre0
    | None => forall pre w, ~ juiz_at wide_word s pre w
    end.
Proof.
  induction s as [|c t IH]; intros p; cbn [search_juiz].
  - destruct (match_juiz_at wide_word p []) as [g|] eqn:M.
    + apply match_juiz_at_iff in M. destruct M as (r & E & W & R).
      exists []. split; [now exists r|]. intros pre0 w0 _. apply Nat.le_0_l.
    + intros pre w (post & E & W & _).
      destruct pre; [|discriminate E]. destruct w; discriminate.
  - destruct (match_juiz_at wide_word p (c :: t)) as [g|] eqn:M.
    + apply match_juiz_at_iff in M. destruct M as (r & E & W & R).
      exists []. split; [now exists r|]. intros pre0 w0 _. apply Nat.le_0_l.
    + specialize (IH (Some c)).
      destruct (search_juiz wide_word (Some c) t) as [g|].
      * destruct IH as (pre & H & Hleft). exists (c :: pre). split.
        -- destruct H as (post & -> & W & R). now exists post.
        -- intros pre0 w0 H0. apply juiz_at_later in H0.
           destruct H0 as [H0 | (pre' & -> & H0)].
           ++ rewrite (juiz_at_start _ p _ _ H0) in M. discriminate M.
           ++ cbn [length]. apply le_n_S. now apply (Hleft pre' w0).
      * intros pre w H. apply juiz_at_later in H.
        destruct H as [H | (pre' & -> & H)].
        -- rewrite (juiz_at_start _ p _ _ H) in M. discriminate M.
        -- exact (IH pre' w H).
Qed.

Ltac letter_cases W :=
  cbn [juiz_word among existsb] in W;
  repeat match type of W with
         | _ && _ = true =>
             let K := fresh "K" in
             apply andb_true_iff in W; destruct W as [W K];
             repeat (apply orb_true_iff in K; destruct K as [K|K]);
             try discriminate K; apply N.eqb_eq in K
         end;
  repeat (apply orb_true_iff in W; destruct W as [W|W]);
  try discriminate W; apply N.eqb_eq in W; subst.

(** The title read from a word: one of the six values, and one of the two
    plain ones exactly when the word is in Latin-1. *)
Lemma title_spelling (wide_lower : ustr -> ustr) (w : ustr) :
  juiz_word w = true ->
  let termo := replace_char (cp i_acute) (cp "i") (lower wide_lower w) in
  In termo termos_juiz
  /\ (In termo [utxt "juiza"; utxt "juize"]
      <-> forallb (fun c => (c <? 256)%N) w = true).
Proof.
  intros W. destruct w as [|j [|u [|i [|z [|a [|]]]]]]; try discriminate.
  letter_cases W; vm_compute;
    (split;
     [ auto 8
     | split;
       [ first [ reflexivity
               | intros [H|[H|[]]]; discriminate H ]
       | first [ discriminate | intros _; auto ] ] ]).
Qed.

(** A title written with the dotless i keeps it: lower case does not turn
    U+0131 into [i], and the replacement only knows the accented [i]. *)
Example dotless_title (wide_word : N -> bool) (wide_lower : ustr -> ustr) :
  extrair_termo_juiz wide_word wide_lower
    (utxt "A Ju" ++ [dotless_i] ++ utxt "za decide")
  = Some (utxt "ju" ++ [dotless_i] ++ utxt "za").
Proof. reflexivity. Qed.

(** X15. The judge's title is read at the leftmost place where the text
    has [ju], an [i] in one of its forms (plain, accented, dotless U+0131,
    dotted capital U+0130), [z], [a] or [e] and then no word character, case
    ignored.  It is that word in lower case with the accented [i] replaced:
    one of six values, [juiza] or [juize] exactly when the word is in
    Latin-1, and never [juiz].  Without such a place there is no title. *)
Theorem judge_title_from_leftmost_occurrence :
  forall (wide_word : N -> bool) (wide_lower : ustr -> ustr) (text : ustr),
    match extrair_termo_juiz wide_word wide_lower text with
    | Some termo =>
        In termo termos_juiz
        /\ termo <> utxt "juiz"
        /\ exists pre w,
             juiz_at wide_word text pre w
             /\ termo = replace_char (cp i_acute) (cp "i") (lower wide_lower w)
             /\ (In termo [utxt "juiza"; utxt "juize"]
                 <-> forallb (fun c => (c <? 256)%N) w = true)
             /\ forall pre0 w0, juiz_at wide_word text pre0 w0 ->
                                length pre <= length pre0
    | None => forall pre w, ~ juiz_at wide_word text pre w
    end.
Proof.
  intros wide_word wide_lower text. unfold extrair_termo_juiz.
  pose proof (search_juiz_leftmost wide_word text None) as S.
  destruct (search_juiz wide_word None text) as [g|]; [|exact S].
  destruct S as (pre & H & Hleft).
  assert (W : juiz_word g = true) by now destruct H as (post & _ & W & _).
  destruct (title_spelling wide_lower g W) as [Hin Hplain].
  split; [exact Hin|]. split.
  - intros E. rewrite E in Hin. vm_compute in Hin.
    repeat (destruct Hin as [Hin|Hin]; [discriminate Hin|]). exact Hin.
  - exists pre, g. repeat split; try assumption; apply Hplain.
Qed.

(** ** The folder loop *)

Lemma sucesso_readable (d : document) :
  sucesso (extrair_info_pdf d) = readable d.
Proof.
  destruct d as [path [msg|[|pg pages]] [e|]]; try reflexivity.
  - now rewrite extrair_info_pdf_fault.
  - now rewrite extrair_info_pdf_success.
Qed.

Lemma unreadable_has_description (d : document) :
  readable d = false ->
  exists e, erro (extrair_info_pdf d) = Some e /\ e <> [].
Proof.
  destruct d as [path [msg|[|pg pages]] [e|]]; try discriminate; intros _;
    try (eexists; split; [reflexivity | discriminate]).
  rewrite extrair_info_pdf_fault by discriminate.
  eexists; split; [reflexivity | discriminate].
Qed.

Lemma readable_result (d : document) :
  readable d = true ->
  erro (extrair_info_pdf d) = None /\ arquivo (extrair_info_pdf d) = nome d.
Proof.
  destruct d as [path [msg|[|pg pages]] [e|]]; try discriminate; intros _.
  rewrite extrair_info_pdf_success by discriminate. split; reflexivity.
Qed.

Lemma fold_processar (docs : list document)
  (st : list resultado * list erro_arquivo) :
  fold_left processar_step docs st
  = (fst st ++ map extrair_info_pdf (filter readable docs),
     snd st ++ map erro_de (filter (fun d => negb (readable d)) docs)).
Proof.
  revert st. induction docs as [|d docs IH]; intros [rs es]; cbn [fold_left].
  - cbn [filter map fst snd]. now rewrite !app_nil_r.
  - rewrite IH. unfold processar_step. rewrite sucesso_readable.
    cbn [filter]. destruct (readable d); cbn [negb fst snd map];
      now rewrite <- ?app_assoc.
Qed.

(** X16. The loop over the folder sorts the documents without reordering
    them: [resultados] holds the results of the readable documents and
    [erros] one entry for each of the others, both in the order of the
    listing. *)
Theorem processar_loop_sorts_documents :
  forall docs : list document,
    fst (processar_loop docs) = map extrair_info_pdf (filter readable docs)
    /\ snd (processar_loop docs)
       = map erro_de (filter (fun d => negb (readable d)) docs).
Proof.
  intros docs. unfold processar_loop. rewrite fold_processar. split; reflexivity.
Qed.

(** X17. In the statistics returned, the total is the number of documents
    listed, the successes are the readable documents, and successes and
    errors add up to the total, whatever the output path is. *)
Theorem statistics_add_up :
  forall (pasta : str) (saida : option str) (docs : list document),
    let e := processar_pasta_decisoes pasta saida docs in
    total_arquivos e = length docs
    /\ processados_com_sucesso e = length (filter readable docs)
    /\ processados_com_sucesso e + com_erro e = total_arquivos e.
Proof.
  intros pasta saida docs. unfold processar_pasta_decisoes, processar_loop.
  rewrite fold_processar. cbn [fst snd app]. cbv zeta.
  cbn [total_arquivos processados_com_sucesso com_erro].
  rewrite !length_map. repeat split. apply filter_length.
Qed.

(** X18. Every result kept for export is a success without an error
    description, every error entry has a description that is not empty, and
    the file names of the two lists are those of the readable and of the
    other documents. *)
Theorem exported_rows_and_error_entries :
  forall docs : list document,
    Forall is_success (fst (processar_loop docs))
    /\ Forall (fun en => exists e, erro_descricao en = Some e /\ e <> [])
              (snd (processar_loop docs))
    /\ map arquivo (fst (processar_loop docs)) = map nome (filter readable docs)
    /\ map erro_nome (snd (processar_loop docs))
       = map nome (filter (fun d => negb (readable d)) docs).
Proof.
  intros docs. unfold processar_loop. rewrite fold_processar. cbn [fst snd app].
  repeat split.
  - apply Forall_forall. intros r Hr. apply in_map_iff in Hr.
    destruct Hr as (d & <- & Hd). apply filter_In in Hd. destruct Hd as [_ Hd].
    split; [now rewrite sucesso_readable | now apply readable_result].
  - apply Forall_forall. intros en Hen. apply in_map_iff in Hen.
    destruct Hen as (d & <- & Hd). apply filter_In in Hd. destruct Hd as [_ Hd].
    apply negb_true_iff in Hd. now apply unreadable_has_description.
  - rewrite map_map. apply map_ext_in. intros d Hd. apply filter_In in Hd.
    now apply readable_result.
  - now rewrite map_map.
Qed.

(** X19. Processing a listing in two parts and putting the results and
    the error entries together gives what processing the whole listing
    gives. *)
Theorem processar_loop_app :
  forall a b : list document,
    processar_loop (a ++ b)
    = (fst (processar_loop a) ++ fst (processar_loop b),
       snd (processar_loop a) ++ snd (processar_loop b)).
Proof.
  intros a b. unfold processar_loop. rewrite !fold_processar. cbn [fst snd app].
  now rewrite !filter_app, !map_app.
Qed.

(** ** Paths *)

Lemma split_aux_plain (x cur : str) :
  forallb not_slash x = true -> split_aux "/" cur x = [rev cur ++ x].
Proof.
  revert cur. induction x as [|c x IH]; intros cur H; cbn [split_aux].
  - now rewrite app_nil_r.
  - cbn [forallb] in H. apply andb_true_iff in H. destruct H as [Hc H].
    unfold not_slash in Hc. apply negb_true_iff in Hc. rewrite Hc.
    rewrite IH by exact H. cbn [rev]. now rewrite <- app_assoc.
Qed.

Lemma split_aux_slash (x cur t : str) :
  forallb not_slash x = true ->
  split_aux "/" cur (x ++ "/"%char :: t) = (rev cur ++ x) :: split_aux "/" [] t.
Proof.
  revert cur. induction x as [|c x IH]; intros cur H; cbn [split_aux app].
  - now rewrite app_nil_r.
  - cbn [forallb] in H. apply andb_true_iff in H. destruct H as [Hc H].
    unfold not_slash in Hc. apply negb_true_iff in Hc. rewrite Hc.
    rewrite IH by exact H. cbn [rev]. now rewrite <- app_assoc.
Qed.

Lemma split_aux_join (parts : list str) :
  parts <> [] -> Forall (fun x => forallb not_slash x = true) parts ->
  split_aux "/" [] (join (txt "/") parts) = parts.
Proof.
  induction parts as [|x parts IH]; [contradiction|]. intros _ H.
  inversion H as [|? ? Hx Hp]; subst.
  destruct parts as [|y parts].
  - cbn [join]. now rewrite split_aux_plain.
  - rewrite join_cons_nonempty by discriminate.
    change (txt "/" ++ join (txt "/") (y :: parts))
      with ("/"%char :: join (txt "/") (y :: parts)).
    rewrite split_aux_slash by exact Hx. cbn [rev app].
    now rewrite IH.
Qed.

Lemma split_aux_pieces (s cur : str) :
  forallb not_slash cur = true ->
  Forall (fun x => forallb not_slash x = true) (split_aux "/" cur s).
Proof.
  revert cur. induction s as [|c s IH]; intros cur H; cbn [split_aux].
  - constructor; [|constructor]. rewrite forallb_forall in *.
    intros a Ha. apply H. now apply in_rev.
  - destruct (Ascii.eqb c "/") eqn:E.
    + constructor; [|now apply IH].
      rewrite forallb_forall in *. intros a Ha. apply H. now apply in_rev.
    + apply IH. cbn [forallb]. unfold not_slash at 1. now rewrite E.
Qed.

Lemma path_parts_simple (p : str) :
  Forall (fun x => simple_name x = true) (path_parts p).
Proof.
  apply Forall_forall. intros x Hx. unfold path_parts in Hx.
  apply filter_In in Hx. destruct Hx as [Hx Hf].
  unfold simple_name. rewrite Hf. cbn [andb].
  pose proof (split_aux_pieces p [] eq_refl) as F.
  rewrite Forall_forall in F. now apply F.
Qed.

Lemma filter_simple (parts : list str) :
  Forall (fun x => simple_name x = true) parts ->
  filter (fun x => negb (is_empty x) && negb (str_eqb x (txt "."))) parts = parts.
Proof.
  induction 1 as [|x parts Hx _ IH]; [reflexivity|].
  cbn [filter]. unfold simple_name in Hx. apply andb_true_iff in Hx.
  destruct Hx as [Hx _]. now rewrite Hx, IH.
Qed.

Lemma simple_no_slash (parts : list str) :
  Forall (fun x => simple_name x = true) parts ->
  Forall (fun x => forallb not_slash x = true) parts.
Proof.
  apply Forall_impl. intros x Hx. unfold simple_name in Hx.
  now apply andb_true_iff in Hx.
Qed.

(** Reading the joined components gives them back. *)
Lemma path_parts_join (parts : list str) :
  Forall (fun x => simple_name x = true) parts ->
  path_parts (join (txt "/") parts) = parts.
Proof.
  intros H. destruct parts as [|x parts]; [reflexivity|].
  unfold path_parts. rewrite split_aux_join.
  - now apply filter_simple.
  - discriminate.
  - now apply simple_no_slash.
Qed.

Lemma path_parts_slash (s : str) : path_parts ("/"%char :: s) = path_parts s.
Proof. reflexivity. Qed.

Lemma path_root_cases (p : str) :
  path_root p = [] \/ path_root p = txt "/" \/ path_root p = txt "//".
Proof.
  destruct p as [|a p]; [now left|].
  destruct a as [[] [] [] [] [] [] [] []]; try (now left).
  destruct p as [|b p]; [right; now left|].
  destruct b as [[] [] [] [] [] [] [] []]; try (right; now left).
  destruct p as [|c p]; [right; now right|].
  destruct c as [[] [] [] [] [] [] [] []]; try (right; now right).
  right; now left.
Qed.

(** The first character of joined components is no slash. *)
Lemma join_simple_head (parts : list str) :
  Forall (fun x => simple_name x = true) parts ->
  match join (txt "/") parts with
  | c :: _ => Ascii.eqb c "/" = false
  | [] => True
  end.
Proof.
  intros H. destruct parts as [|x parts]; [exact I|].
  inversion H as [|? ? Hx _]; subst.
  unfold simple_name in Hx. apply andb_true_iff in Hx. destruct Hx as [Hx Hs].
  apply andb_true_iff in Hx. destruct Hx as [Hx _].
  destruct x as [|c x]; [discriminate|].
  cbn [forallb] in Hs. apply andb_true_iff in Hs. destruct Hs as [Hc _].
  unfold not_slash in Hc. apply negb_true_iff in Hc.
  destruct parts; cbn [join app]; exact Hc.
Qed.

Lemma path_format_reads_back (root : str) (parts : list str) :
  root = [] \/ root = txt "/" \/ root = txt "//" ->
  Forall (fun x => simple_name x = true) parts ->
  path_parts (path_format root parts) = parts
  /\ path_root (path_format root parts) = root.
Proof.
  intros R H. pose proof (path_parts_join parts H) as J.
  pose proof (join_simple_head parts H) as Hd.
  destruct R as [-> | [-> | ->]].
  - destruct parts as [|x parts]; [split; reflexivity|].
    unfold path_format. cbn [app]. split; [exact J|].
    destruct (join (txt "/") (x :: parts)) as [|c s]; [reflexivity|].
    apply Ascii.eqb_neq in Hd. cbn [path_root].
    destruct c as [[] [] [] [] [] [] [] []]; try reflexivity.
    now contradiction Hd.
  - assert (E : path_format (txt "/") parts = "/"%char :: join (txt "/") parts)
      by now destruct parts.
    rewrite E, path_parts_slash. split; [exact J|].
    destruct (join (txt "/") parts) as [|c s]; [reflexivity|].
    apply Ascii.eqb_neq in Hd. cbn [path_root].
    destruct c as [[] [] [] [] [] [] [] []]; try reflexivity.
    now contradiction Hd.
  - assert (E : path_format (txt "//") parts
                = "/"%char :: "/"%char :: join (txt "/") parts)
      by now destruct parts.
    rewrite E, !path_parts_slash. split; [exact J|].
    destruct (join (txt "/") parts) as [|c s]; [reflexivity|].
    apply Ascii.eqb_neq in Hd. cbn [path_root].
    destruct c as [[] [] [] [] [] [] [] []]; try reflexivity.
    now contradiction Hd.
Qed.

(** X20. The text of a path reads back as the same path: same components,
    same anchor, hence the same text and the same file name.  The name taken
    by [extrair_info_pdf] from the text of a path is thus the name of the
    path. *)
Theorem path_text_round_trip :
  forall p : str,
    path_parts (path_str p) = path_parts p
    /\ path_root (path_str p) = path_root p
    /\ path_str (path_str p) = path_str p
    /\ path_name (path_str p) = path_name p.
Proof.
  intros p.
  destruct (path_format_reads_back (path_root p) (path_parts p)
              (path_root_cases p) (path_parts_simple p)) as [P R].
  fold (path_str p) in P, R. repeat split.
  - exact P.
  - exact R.
  - unfold path_str at 1. now rewrite P, R.
  - unfold path_name. now rewrite P.
Qed.

(** The name of a child path is the name given. *)
Lemma path_child_name :
  forall p name : str,
    simple_name name = true ->
    path_name (path_child p name) = name
    /\ path_parts (path_child p name) = path_parts p ++ [name]
    /\ path_root (path_child p name) = path_root p.
Proof.
  intros p name Hn.
  assert (N : path_parts name = [name]).
  { change name with (join (txt "/") [name]) at 1.
    apply path_parts_join. now constructor. }
  unfold path_child. rewrite N.
  destruct (path_format_reads_back (path_root p) (path_parts p ++ [name])
              (path_root_cases p)) as [P R].
  { apply Forall_app. split; [apply path_parts_simple | now constructor]. }
  repeat split; [|exact P | exact R].
  unfold path_name. rewrite P. apply last_last.
Qed.

(** X21. Without an output path, the CSV file is the child
    [decisoes_extraidas.csv] of the folder: that is its file name, under the
    components and the anchor of the folder.  With an output path, it is the
    text of that path. *)
Theorem default_csv_path :
  forall (pasta : str) (docs : list document),
    let e := processar_pasta_decisoes pasta None docs in
    path_name (arquivo_csv e) = txt "decisoes_extraidas.csv"
    /\ path_parts (arquivo_csv e)
       = path_parts pasta ++ [txt "decisoes_extraidas.csv"]
    /\ path_root (arquivo_csv e) = path_root pasta
    /\ forall saida,
         arquivo_csv (processar_pasta_decisoes pasta (Some saida) docs)
         = path_str saida.
Proof.
  intros pasta docs. cbv zeta.
  assert (E : forall saida,
             arquivo_csv (processar_pasta_decisoes pasta saida docs)
             = match saida with
               | None => path_child pasta (txt "decisoes_extraidas.csv")
               | Some x => path_str x
               end).
  { intros saida. unfold processar_pasta_decisoes.
    now destruct (processar_loop docs). }
  rewrite (E None).
  destruct (path_child_name pasta (txt "decisoes_extraidas.csv") eq_refl)
    as (N & P & R).
  repeat split; try assumption. intros saida. exact (E (Some saida)).
Qed.

